(** * visitor.h: the visitor and acyclic visitor templates, cloning and printing

    A shallow embedding of [visitor.h].  Template instantiation is modelled
    by ordinary parameters: a type argument [S] or [T] is a [qtype] (a class
    name with an optional top-level [const]), a pack [T...] is a list of
    them.  Objects live in a store indexed by address, so that "the same
    object" is address equality; every object records its dynamic type, the
    value [typeid( *this )] yields. *)

From stdpp Require Import gmap strings list.

Local Open Scope string_scope.
Local Open Scope list_scope.

(** ** Types and objects *)

Definition class := string.
Definition addr := nat.

(** A template type argument: [S] or [const S]. *)
Record qtype := QT { q_const : bool; q_class : class }.

#[global] Instance qtype_eq_dec : EqDecision qtype.
Proof. solve_decision. Defined.

(** [const T] as formed in [Visitor<const T...>]; a second [const] is absorbed. *)
Definition add_const (q : qtype) : qtype := QT true (q_class q).

(** [typeid] ignores top-level cv-qualifiers: [typeid(const S) == typeid(S)]. *)
Definition typeid_type (q : qtype) : class := q_class q.

(** [Visitor<T...>::ConstVisitor] is [Visitor<const T...>] (line 17), and
    likewise for [AcyclicVisitor] (line 94). *)
Definition ConstVisitor (Ts : list qtype) : list qtype := add_const <$> Ts.

Record object (value : Type) := Obj { o_dyn : class; o_val : value }.
Arguments Obj {value} _ _.
Arguments o_dyn {value} _.
Arguments o_val {value} _.

(** ** Outcomes *)

(** How a call of the library ends.  [Abort] is a failed [assert];
    [Undefined] is undefined behaviour (a cast to a type the object does not
    have, a dangling reference); [Raised] is an exception leaving user code
    (a [visit] overrider or a functor); [Rejected] stands for a program this
    header does not cover: one the compiler refuses (a [static_cast] to a
    class that is no base), or a call that leaves the header through a
    user-written overrider. *)
Inductive result (A : Type) : Type :=
  | Ok (a : A)
  | Abort
  | Undefined
  | Raised
  | Rejected.
Arguments Ok {A} a.
Arguments Abort {A}.
Arguments Undefined {A}.
Arguments Raised {A}.
Arguments Rejected {A}.

(** The entry points the library itself invokes, in order (ghost state). *)
Inductive call := CVisit (q : qtype) (a : addr).

Section Library.

Context {value : Type}.

(** The store of variant objects. *)
Abbreviation store := (gmap addr (object value)).

(** The state a call runs in: the objects, the log of [visit] calls, and
    the caller's data [U] that the visitor at hand refers to (its functor,
    an output stream, a result slot). *)
Record state (U : Type) := State {
  st_objs : store;
  st_calls : list call;
  st_user : U }.
Arguments State {U} _ _ _.
Arguments st_objs {U} _.
Arguments st_calls {U} _.
Arguments st_user {U} _.

Definition M (U A : Type) : Type := state U -> result (A * state U).

Definition ret {U A} (a : A) : M U A := fun σ => Ok (a, σ).

Definition bind {U A B} (m : M U A) (k : A -> M U B) : M U B :=
  fun σ =>
    match m σ with
    | Ok (a, σ') => k a σ'
    | Abort => Abort
    | Undefined => Undefined
    | Raised => Raised
    | Rejected => Rejected
    end.

Definition fail {U A} (r : result (A * state U)) : M U A := fun _ => r.

Notation "'let*' x ':=' m 'in' k" := (bind m (fun x => k))
  (at level 10, x name, m at level 100, k at level 200, only parsing).
Notation "m ';;' k" := (bind m (fun _ => k))
  (at level 100, k at level 200, right associativity, only parsing).

(** ** The user's program *)

(** What the header takes from the program that includes it. *)
Record program (OutputStream : Type) := Program {
  (** [NDEBUG] is defined: [assert] expands to nothing. *)
  ndebug : bool;
  (** all proper base classes of a class *)
  bases_of : class -> list class;
  (** the [S] of the [Visitor<T...>::Visitable<S>] whose [accept] is the
      final overrider in a class, if the class has one *)
  visitable_of : class -> option qtype;
  (** the same for [AcyclicVisitable<S>] and [tryAccept], [tryAcceptConst] *)
  acyclic_visitable_of : class -> option qtype;
  (** the copy constructor [T(const T &)], on the value of the source *)
  copy_ctor : class -> value -> value;
  (** [os << t] for [t] of type [const T &] *)
  stream_insert : OutputStream -> class -> value -> OutputStream }.
Arguments ndebug {OutputStream} _.
Arguments bases_of {OutputStream} _ _.
Arguments visitable_of {OutputStream} _ _.
Arguments acyclic_visitable_of {OutputStream} _ _.
Arguments copy_ctor {OutputStream} _ _ _.
Arguments stream_insert {OutputStream} _ _ _ _.

(** A user-written body (a [visit] overrider, a functor's [operator()]):
    it receives the address of its argument and works on the objects and
    on the caller's data; [None] is an exception. *)
Definition body (U : Type) : Type := addr -> store -> U -> option (store * U).

(** A visitor object: [v_entry v q] is the final overrider of [visit(q &)]
    when the visitor's class has the base [Visitor<q>] (for an acyclic
    visitor [AcyclicVisitor<q>]), and [None] when it has no such base. *)
Record visitor (U : Type) := Visitor { v_entry : qtype -> option (body U) }.
Arguments Visitor {U} _.
Arguments v_entry {U} _ _.

(** [Impl<F>] of [Visitor<T...>] (lines 19-31) and of [AcyclicVisitor<T...>]
    (lines 96-108): for every [T] of the pack, [visit(T & t)] is
    [getFunctor()(t)] (lines 75, 125).  The functor [f] is an overload set
    indexed by the argument type. *)
Definition Impl {U} (Ts : list qtype) (f : qtype -> body U) : visitor U :=
  Visitor (fun q => if decide (q ∈ Ts) then Some (f q) else None).

(** [makeImpl] (lines 33-37, 110-114). *)
Definition makeImpl {U} (Ts : list qtype) (f : qtype -> body U) : visitor U :=
  Impl Ts f.

Section Dispatch.

Context {OutputStream U : Type} (P : program OutputStream).

(** The virtual call [e.visit(t)], logged. *)
Definition call_visit (e : body U) (q : qtype) (t : addr) : M U unit :=
  fun σ =>
    match e t (st_objs σ) (st_user σ) with
    | Some (objs, u) => Ok (tt, State objs (st_calls σ ++ [CVisit q t]) u)
    | None => Raised
    end.

(** [typeid( *this )] *)
Definition typeid_this (this : addr) : M U class :=
  fun σ =>
    match st_objs σ !! this with
    | Some o => Ok (o_dyn o, σ)
    | None => Undefined
    end.

(** [assert(c)] *)
Definition assert (c : bool) : M U unit :=
  if ndebug P || c then ret tt else fail Abort.

(** An object of dynamic type [d] has a subobject of class [c]. *)
Definition is_a (d c : class) : bool :=
  bool_decide (d = c) || bool_decide (c ∈ bases_of P d).

(** [static_cast<S &>( *this )]: the same object, seen as an [S]; undefined
    when the object is no [S]. *)
Definition static_cast_this (S : qtype) (this : addr) : M U addr :=
  let* d := typeid_this this in
  if is_a d (q_class S) then ret this else fail Undefined.

(** [static_cast<Visitor<S> &>(v)]: an upcast, refused by the compiler
    when [Visitor<S>] is no base of the visitor. *)
Definition static_cast_visitor (v : visitor U) (S : qtype) : M U (body U) :=
  match v_entry v S with
  | Some e => ret e
  | None => fail Rejected
  end.

(** [Visitable<S>::accept( Visitor & v )], lines 49-54. *)
Definition accept (S : qtype) (v : visitor U) (this : addr) : M U unit :=
  let* d := typeid_this this in
  assert (bool_decide (d = typeid_type S)) ;;
  let* e := static_cast_visitor v S in
  let* t := static_cast_this S this in
  call_visit e S t.

(** [Visitable<S>::accept( ConstVisitor & v ) const], lines 56-61. *)
Definition accept_const (S : qtype) (v : visitor U) (this : addr) : M U unit :=
  let* d := typeid_this this in
  assert (bool_decide (d = typeid_type (add_const S))) ;;
  let* e := static_cast_visitor v (add_const S) in
  let* t := static_cast_this (add_const S) this in
  call_visit e (add_const S) t.

(** [dynamic_cast<AcyclicVisitor<S>*>(&v)]: null when the visitor has no
    such base. *)
Definition dynamic_cast_visitor (v : visitor U) (S : qtype) : option (body U) :=
  v_entry v S.

(** [AcyclicVisitable<S>::tryAccept], lines 141-150. *)
Definition tryAccept (S : qtype) (v : visitor U) (this : addr) : M U bool :=
  match dynamic_cast_visitor v S with
  | Some pv =>
      let* t := static_cast_this S this in
      call_visit pv S t ;;
      ret true
  | None => ret false
  end.

(** [AcyclicVisitable<S>::tryAcceptConst], lines 152-161. *)
Definition tryAcceptConst (S : qtype) (v : visitor U) (this : addr) : M U bool :=
  match dynamic_cast_visitor v (add_const S) with
  | Some pv =>
      let* t := static_cast_this (add_const S) this in
      call_visit pv (add_const S) t ;;
      ret true
  | None => ret false
  end.

(** The virtual calls [client.accept(v)] on a [const VisitableInterface &]
    and [client.tryAcceptConst(v)] on a [const AcyclicVisitableInterface &]:
    the final overrider of the client's class runs. *)
Definition virtual_accept_const (v : visitor U) (client : addr) : M U unit :=
  let* d := typeid_this client in
  match visitable_of P d with
  | Some q => accept_const q v client
  | None => fail Rejected
  end.

Definition virtual_tryAcceptConst (v : visitor U) (client : addr) : M U bool :=
  let* d := typeid_this client in
  match acyclic_visitable_of P d with
  | Some q => tryAcceptConst q v client
  | None => fail Rejected
  end.

End Dispatch.

(** ** Generic cloning and streaming *)

(** Runs a call on the objects [objs], with the caller's data [u] and an
    empty log; the log is dropped at the end. *)
Definition run {U A} (m : M U A) (objs : store) (u : U) : result (A * U * store) :=
  match m (State objs [] u) with
  | Ok (a, σ) => Ok (a, st_user σ, st_objs σ)
  | Abort => Abort
  | Undefined => Undefined
  | Raised => Raised
  | Rejected => Rejected
  end.

(** The outcome of a call with its result mapped through [f]. *)
Definition result_map {A B} (f : A -> B) (r : result A) : result B :=
  match r with
  | Ok a => Ok (f a)
  | Abort => Abort
  | Undefined => Undefined
  | Raised => Raised
  | Rejected => Rejected
  end.

(** [struct Cloner] (lines 169-177): [copy] is a [std::unique_ptr<Base>],
    null or the address of the object it owns. *)
Record Cloner := MkCloner { copy : option addr }.

(** [new T(t)]: storage at an address no live object has.  (Allocation
    never fails here; [std::bad_alloc] is not modelled.) *)
Definition new_object (objs : store) (o : object value) : addr * store :=
  let p := fresh (dom objs) in (p, <[p := o]> objs).

(** What a [unique_ptr] does with the object it owns when it is assigned
    to or destroyed: it deletes it. *)
Definition unique_ptr_release (owned : option addr) (objs : store) : store :=
  match owned with
  | Some p => delete p objs
  | None => objs
  end.

Section Operations.

Context {OutputStream : Type} (P : program OutputStream).

(** [Cloner<Base>::operator()( const T & t )], lines 172-174.  Called with
    a [q &], [T] is deduced as the class of [q].  The library passes only
    references it has just cast, so the reference is never dangling; the
    last case is there to make the function total.  [Base] only types the
    pointer and is left out. *)
Definition Cloner_call (q : qtype) : body Cloner :=
  fun t objs cloner =>
    match objs !! t with
    | Some src =>
        let T := q_class q in
        let (p, objs1) := new_object objs (Obj T (copy_ctor P T (o_val src))) in
        Some (unique_ptr_release (copy cloner) objs1, MkCloner (Some p))
    | None => None
    end.

(** [return std::move(cloner.copy)] followed by the destructor of the
    local [cloner]: the pointer is moved out, the slot left null, and the
    destructor deletes what the slot still owns. *)
Definition return_copy : M Cloner (option addr) :=
  fun σ =>
    let r := copy (st_user σ) in
    let moved_from := MkCloner None in
    Ok (r, State (unique_ptr_release (copy moved_from) (st_objs σ))
                 (st_calls σ) moved_from).

(** [clone<V, Base>( const typename V::VisitableInterface & client )],
    lines 179-186, for [V = Visitor<Ts...>]. *)
Definition clone (Ts : list qtype) (client : addr) (objs : store)
  : result (option addr * store) :=
  let v := Impl (ConstVisitor Ts) Cloner_call in
  match run (virtual_accept_const P v client ;; return_copy) objs (MkCloner None) with
  | Ok (r, _, objs') => Ok (r, objs')
  | Abort => Abort
  | Undefined => Undefined
  | Raised => Raised
  | Rejected => Rejected
  end.

(** [clone<V, Base>( const AcyclicVisitableInterface & client )],
    lines 188-195, for [V = AcyclicVisitor<Ts...>]. *)
Definition clone_acyclic (Ts : list qtype) (client : addr) (objs : store)
  : result (option addr * store) :=
  let v := Impl (ConstVisitor Ts) Cloner_call in
  match run (virtual_tryAcceptConst P v client ;; return_copy) objs (MkCloner None) with
  | Ok (r, _, objs') => Ok (r, objs')
  | Abort => Abort
  | Undefined => Undefined
  | Raised => Raised
  | Rejected => Rejected
  end.

(** [Streamer<OutputStream>::operator()( const T & t )], line 208: the
    functor holds a reference to the stream, which is the caller's data. *)
Definition Streamer_call (q : qtype) : body OutputStream :=
  fun t objs os =>
    match objs !! t with
    | Some o => Some (objs, stream_insert P os (q_class q) (o_val o))
    | None => None
    end.

(** [print<V>( os, client )] for a [const typename V::VisitableInterface &],
    lines 214-220.  The result is the stream [os] refers to afterwards. *)
Definition print (Ts : list qtype) (os : OutputStream) (client : addr) (objs : store)
  : result (OutputStream * store) :=
  let v := makeImpl (ConstVisitor Ts) Streamer_call in
  match run (virtual_accept_const P v client) objs os with
  | Ok (_, os', objs') => Ok (os', objs')
  | Abort => Abort
  | Undefined => Undefined
  | Raised => Raised
  | Rejected => Rejected
  end.

(** [print<V>( os, client )] for a [const AcyclicVisitableInterface &],
    lines 222-228; the result of [tryAcceptConst] is discarded. *)
Definition print_acyclic (Ts : list qtype) (os : OutputStream) (client : addr)
    (objs : store) : result (OutputStream * store) :=
  let v := makeImpl (ConstVisitor Ts) Streamer_call in
  match run (virtual_tryAcceptConst P v client) objs os with
  | Ok (_, os', objs') => Ok (os', objs')
  | Abort => Abort
  | Undefined => Undefined
  | Raised => Raised
  | Rejected => Rejected
  end.

End Operations.

End Library.

Arguments State {value U} _ _ _.
Arguments st_objs {value U} _.
Arguments st_calls {value U} _.
Arguments st_user {value U} _.
Arguments Program {value OutputStream} _ _ _ _ _ _.
Arguments ndebug {value OutputStream} _.
Arguments bases_of {value OutputStream} _ _.
Arguments visitable_of {value OutputStream} _ _.
Arguments acyclic_visitable_of {value OutputStream} _ _.
Arguments copy_ctor {value OutputStream} _ _ _.
Arguments stream_insert {value OutputStream} _ _ _ _.
Arguments Visitor {value U} _.
Arguments v_entry {value U} _ _.

(** ** Constructing an [Impl<F>] from another [Impl<F>]

    Lines 22-27 (closed visitor) and 99-104 (acyclic visitor) declare five
    constructors.  Which of them initialises an [Impl] from an expression
    of type [Impl] is decided by overload resolution on the value category
    and constness of that expression. *)
Module ImplCtor.

(** The argument expression: [const] or not, rvalue or lvalue. *)
Record arg := Arg { a_const : bool; a_rvalue : bool }.

Definition lvalue : arg := Arg false false.
Definition const_lvalue : arg := Arg true false.
Definition rvalue : arg := Arg false true.
Definition const_rvalue : arg := Arg true true.

Inductive ctor :=
  | Forwarding        (* template <typename...Args> Impl( Args&&...args ) *)
  | FromLvalue        (* Impl( Impl & other ) *)
  | Move              (* Impl( Impl && ) = default *)
  | Copy              (* Impl( const Impl & ) = default *)
  | FromConstRvalue.  (* Impl( const Impl && other ) *)

#[global] Instance ctor_eq_dec : EqDecision ctor.
Proof. solve_decision. Defined.

Definition all_ctors : list ctor :=
  [Forwarding; FromLvalue; Move; Copy; FromConstRvalue].

(** The parameter a constructor offers to the argument: a reference to a
    possibly [const] [Impl], lvalue or rvalue reference. *)
Record param := Param { p_const : bool; p_rvalue_ref : bool }.

(** For the forwarding constructor [Args &&] is deduced from the argument
    and matches it exactly. *)
Definition param_of (c : ctor) (a : arg) : param :=
  match c with
  | Forwarding => Param (a_const a) (a_rvalue a)
  | FromLvalue => Param false false
  | Move => Param false true
  | Copy => Param true false
  | FromConstRvalue => Param true true
  end.

Definition is_template (c : ctor) : bool :=
  match c with Forwarding => true | _ => false end.

(** Reference binding: constness is never dropped; an rvalue reference
    binds rvalues only, a non-const lvalue reference lvalues only, a const
    lvalue reference anything. *)
Definition binds (p : param) (a : arg) : bool :=
  implb (a_const a) (p_const p)
  && (if p_rvalue_ref p then a_rvalue a else negb (a_rvalue a) || p_const p).

(** Ranking of two bindings of the same argument: an rvalue reference
    bound to an rvalue beats an lvalue reference, and the less
    cv-qualified referent beats the more qualified one. *)
Definition better_binding (a : arg) (p1 p2 : param) : bool :=
  (a_rvalue a && p_rvalue_ref p1 && negb (p_rvalue_ref p2))
  || (negb (p_const p1) && p_const p2).

(** A candidate is better than another when its binding is not worse and
    either is better or the first is no template and the second is. *)
Definition better (a : arg) (c1 c2 : ctor) : bool :=
  let p1 := param_of c1 a in
  let p2 := param_of c2 a in
  negb (better_binding a p2 p1)
  && (better_binding a p1 p2 || (negb (is_template c1) && is_template c2)).

(** Direct-initialisation [Impl x(e)] or copy-initialisation [Impl x = e]. *)
Inductive init := DirectInit | CopyInit.

(** The forwarding constructor is [explicit] in [Visitor<T...>::Impl]
    (line 23) and not in [AcyclicVisitor<T...>::Impl] (line 100). *)
Inductive impl_template := VisitorImpl | AcyclicVisitorImpl.

Definition is_explicit (t : impl_template) (c : ctor) : bool :=
  match t, c with
  | VisitorImpl, Forwarding => true
  | _, _ => false
  end.

(** Copy-initialisation does not consider explicit constructors. *)
Definition admissible (t : impl_template) (k : init) (c : ctor) : bool :=
  match k with
  | DirectInit => true
  | CopyInit => negb (is_explicit t c)
  end.

Definition candidates (t : impl_template) (k : init) (a : arg) : list ctor :=
  List.filter (fun c => binds (param_of c a) a && admissible t k c) all_ctors.

(** The best viable candidate, if there is exactly one. *)
Definition resolve (t : impl_template) (k : init) (a : arg) : option ctor :=
  let cs := candidates t k a in
  find (fun c => forallb (fun c' => bool_decide (c = c') || better a c c') cs) cs.

(** What the program supplies for the functor type [F]. *)
Record functor_class (F : Type) := FunctorClass {
  (** [F( const F & )]: the new functor; the source is [const] *)
  F_copy : F -> F;
  (** [F( F && )]: the new functor and the moved-from source *)
  F_move : F -> F * F;
  (** initialising [F] from an [Impl] holding the given functor, if [F]
      can be initialised so: the new functor and the source's functor *)
  F_from_impl : arg -> F -> option (F * F) }.
Arguments F_copy {F} _ _.
Arguments F_move {F} _ _.
Arguments F_from_impl {F} _ _ _.

Section Construct.

Context {F : Type} (C : functor_class F) (t : impl_template).

(** Initialising an [Impl<F>] from an [Impl<F>] whose member [f] is
    [other]: the new object's [f] and the source's [f] afterwards; [None]
    when the initialisation does not compile.  The fuel bounds the chain
    of delegating constructors. *)
Fixpoint construct (fuel : nat) (k : init) (a : arg) (other : F) : option (F * F) :=
  match fuel with
  | 0 => None
  | S fuel' =>
      match resolve t k a with
      | Some Forwarding => F_from_impl C a other
      | Some FromLvalue => construct fuel' DirectInit const_lvalue other
      | Some Move => Some (F_move C other)
      | Some Copy => Some (F_copy C other, other)
      | Some FromConstRvalue => construct fuel' DirectInit const_lvalue other
      | None => None
      end
  end.

(** The constructors that run, outermost first. *)
Fixpoint chain (fuel : nat) (k : init) (a : arg) : list ctor :=
  match fuel with
  | 0 => []
  | S fuel' =>
      match resolve t k a with
      | Some FromLvalue => FromLvalue :: chain fuel' DirectInit const_lvalue
      | Some FromConstRvalue => FromConstRvalue :: chain fuel' DirectInit const_lvalue
      | Some c => [c]
      | None => []
      end
  end.

End Construct.

(** A functor that counts its calls.  Copying keeps the count, moving
    takes it away from the source, and a counter can also be initialised
    from anything that has a count, an [Impl] included, which it resets. *)
Definition counter : functor_class nat :=
  {| F_copy := fun n => n;
     F_move := fun n => (n, 0);
     F_from_impl := fun _ n => Some (n, 0) |}.

End ImplCtor.

(** ** A program using the header: shapes

    [Circle] and [Square] attach their own visitable capability, closed and
    acyclic; [Disk] derives from [Circle] and attaches nothing of its own,
    so that it reuses the capability of its base.  The value of a shape is
    its radius or side. *)
Module Shapes.

Definition Circle : qtype := QT false "Circle".
Definition Square : qtype := QT false "Square".
Definition Disk : qtype := QT false "Disk".
Definition Triangle : qtype := QT false "Triangle".

Definition capability (c : class) : option qtype :=
  if decide (c = "Circle") then Some Circle
  else if decide (c = "Square") then Some Square
  else if decide (c = "Disk") then Some Circle
  else if decide (c = "Triangle") then Some Triangle
  else None.

(** The stream keeps what was inserted, in order. *)
Definition shapes (release : bool) : program (list (class * Z)) :=
  {| ndebug := release;
     bases_of := fun c => if decide (c = "Disk") then ["Circle"] else [];
     visitable_of := capability;
     acyclic_visitable_of := capability;
     copy_ctor := fun _ x => x;
     stream_insert := fun os T x => (os ++ [(T, x)])%list |}.

Definition objs0 : gmap addr (object Z) :=
  <[1 := Obj "Circle" 2%Z]> (<[2 := Obj "Square" 3%Z]> (<[3 := Obj "Disk" 5%Z]>
  (<[4 := Obj "Triangle" 7%Z]> ∅))).

(** A functor adding up areas (with 3 for pi) in the caller's accumulator. *)
Definition area (q : qtype) : body Z :=
  fun t objs acc =>
    match objs !! t with
    | Some o =>
        let x := o_val o in
        Some (objs, if decide (q_class q = "Circle") then (acc + 3 * x * x)%Z
                    else (acc + x * x)%Z)
    | None => None
    end.

(** [Visitor<Circle, Square>], its const counterpart, and a visitor with
    both kinds of entry points for [Circle]. *)
Definition V : list qtype := [Circle; Square].
Definition area_visitor : visitor Z := makeImpl V area.
Definition const_area_visitor : visitor Z := makeImpl (ConstVisitor V) area.
Definition both_area_visitor : visitor Z := makeImpl (V ++ ConstVisitor V) area.

Definition σ0 : state Z := State objs0 [] 0%Z.

End Shapes.

(** * Properties *)

(** ** The calls on the example program *)

Example accept_circle :
  accept (Shapes.shapes false) Shapes.Circle Shapes.area_visitor 1 Shapes.σ0
  = Ok (tt, State Shapes.objs0 [CVisit Shapes.Circle 1] 12%Z).
Proof. vm_compute. reflexivity. Qed.

Example accept_disk_debug :
  accept (Shapes.shapes false) Shapes.Circle Shapes.area_visitor 3 Shapes.σ0 = Abort.
Proof. vm_compute. reflexivity. Qed.

Example accept_disk_release :
  accept (Shapes.shapes true) Shapes.Circle Shapes.area_visitor 3 Shapes.σ0
  = Ok (tt, State Shapes.objs0 [CVisit Shapes.Circle 3] 75%Z).
Proof. vm_compute. reflexivity. Qed.

Example accept_square_as_circle_release :
  accept (Shapes.shapes true) Shapes.Circle Shapes.area_visitor 2 Shapes.σ0 = Undefined.
Proof. vm_compute. reflexivity. Qed.

Example tryAccept_triangle :
  tryAccept (Shapes.shapes false) Shapes.Triangle Shapes.area_visitor 4 Shapes.σ0
  = Ok (false, Shapes.σ0).
Proof. vm_compute. reflexivity. Qed.

Example clone_circle :
  clone (Shapes.shapes false) Shapes.V 1 Shapes.objs0
  = Ok (Some 5, <[5 := Obj "Circle" 2%Z]> Shapes.objs0).
Proof. vm_compute. reflexivity. Qed.

Example print_two :
  print (Shapes.shapes false) Shapes.V [] 1 Shapes.objs0 = Ok ([("Circle", 2%Z)], Shapes.objs0)
  ∧ print_acyclic (Shapes.shapes false) Shapes.V [("Circle", 2%Z)] 2 Shapes.objs0
    = Ok ([("Circle", 2%Z); ("Square", 3%Z)], Shapes.objs0).
Proof. split; vm_compute; reflexivity. Qed.

Example construct_from_lvalue :
  ImplCtor.resolve ImplCtor.VisitorImpl ImplCtor.DirectInit ImplCtor.lvalue
  = Some ImplCtor.FromLvalue
  ∧ ImplCtor.resolve ImplCtor.VisitorImpl ImplCtor.DirectInit ImplCtor.const_lvalue
    = Some ImplCtor.Copy
  ∧ ImplCtor.resolve ImplCtor.AcyclicVisitorImpl ImplCtor.CopyInit ImplCtor.rvalue
    = Some ImplCtor.Move
  ∧ ImplCtor.resolve ImplCtor.AcyclicVisitorImpl ImplCtor.DirectInit ImplCtor.const_rvalue
    = Some ImplCtor.FromConstRvalue.
Proof. repeat split; reflexivity. Qed.

(** ** Dispatch *)

Section DispatchFacts.

Context {value OutputStream U : Type} (P : program (value := value) OutputStream).
Implicit Types (S : qtype) (v : visitor (value := value) U) (this : addr).
Implicit Types (σ : state (value := value) U) (o : object value).

Lemma bind_ok {A B} (m : M U A) (k : A → M U B) σ a σ' :
  m σ = Ok (a, σ') → bind m k σ = k a σ'.
Proof. unfold bind. intros ->. reflexivity. Qed.

Lemma typeid_this_ok this σ o :
  st_objs σ !! this = Some o → typeid_this this σ = Ok (o_dyn o, σ).
Proof. unfold typeid_this. intros ->. reflexivity. Qed.

Lemma is_a_refl c : is_a P c c = true.
Proof. unfold is_a. rewrite bool_decide_eq_true_2; reflexivity. Qed.

Lemma static_cast_this_ok S this σ o :
  st_objs σ !! this = Some o → is_a P (o_dyn o) (q_class S) = true →
  static_cast_this (U := U) P S this σ = Ok (this, σ).
Proof.
  intros Hobj Hisa. unfold static_cast_this.
  rewrite (bind_ok _ _ _ _ _ (typeid_this_ok _ _ _ Hobj)), Hisa. reflexivity.
Qed.

Lemma assert_true σ : assert (U := U) P true σ = Ok (tt, σ).
Proof. unfold assert. rewrite orb_true_r. reflexivity. Qed.

(** The log after a [visit] call is the log before it and that call. *)
Lemma call_visit_log (e : body U) q t σ σ' :
  call_visit e q t σ = Ok (tt, σ') → st_calls σ' = st_calls σ ++ [CVisit q t].
Proof.
  unfold call_visit. destruct (e t (st_objs σ) (st_user σ)) as [[objs u]|]; [|discriminate].
  intros [= <-]. reflexivity.
Qed.

Lemma call_visit_not_abort (e : body U) q t σ : call_visit e q t σ ≠ Abort.
Proof.
  unfold call_visit. destruct (e t (st_objs σ) (st_user σ)) as [[objs u]|]; discriminate.
Qed.

(** On an object whose dynamic type is the class of [S], [accept] is the
    call of the entry point for [S] on that object. *)
Lemma accept_eq S v this σ o e :
  st_objs σ !! this = Some o → o_dyn o = q_class S → v_entry v S = Some e →
  accept P S v this σ = call_visit e S this σ.
Proof.
  intros Hobj Hdyn He. unfold accept.
  rewrite (bind_ok _ _ _ _ _ (typeid_this_ok _ _ _ Hobj)).
  unfold typeid_type. rewrite bool_decide_eq_true_2 by exact Hdyn.
  rewrite (bind_ok _ _ _ _ _ (assert_true _)).
  unfold static_cast_visitor. rewrite He.
  rewrite (bind_ok _ _ σ e σ) by reflexivity.
  rewrite (bind_ok _ _ σ this σ); [reflexivity|].
  apply (static_cast_this_ok _ _ _ o); [exact Hobj|].
  rewrite Hdyn. apply is_a_refl.
Qed.

Lemma accept_const_eq S v this σ o e :
  st_objs σ !! this = Some o → o_dyn o = q_class S →
  v_entry v (add_const S) = Some e →
  accept_const P S v this σ = call_visit e (add_const S) this σ.
Proof.
  intros Hobj Hdyn He. unfold accept_const.
  rewrite (bind_ok _ _ _ _ _ (typeid_this_ok _ _ _ Hobj)).
  unfold typeid_type. cbn [add_const q_class].
  rewrite bool_decide_eq_true_2 by exact Hdyn.
  rewrite (bind_ok _ _ _ _ _ (assert_true _)).
  unfold static_cast_visitor. cbn [add_const q_class]. rewrite He.
  rewrite (bind_ok _ _ σ e σ) by reflexivity.
  rewrite (bind_ok _ _ σ this σ); [reflexivity|].
  apply (static_cast_this_ok _ _ _ o); [exact Hobj|].
  cbn [q_class]. rewrite Hdyn. apply is_a_refl.
Qed.

(** C1. On a visitable object whose dynamic type is [S], [accept] with a
    visitor that has an entry point for [S] is one call of exactly that
    entry point on the address of the object itself: the outcome of
    [accept] is the outcome of that call, and when it returns the log has
    grown by the single entry [CVisit S this].  The same holds for the
    const [accept] and the entry point for [const S]. *)
Theorem accept_invokes_visit_once S v this σ o :
  st_objs σ !! this = Some o →
  o_dyn o = q_class S →
  (∀ e, v_entry v S = Some e →
     accept P S v this σ = call_visit e S this σ
     ∧ ∀ σ', accept P S v this σ = Ok (tt, σ') →
             st_calls σ' = st_calls σ ++ [CVisit S this])
  ∧ (∀ e, v_entry v (add_const S) = Some e →
     accept_const P S v this σ = call_visit e (add_const S) this σ
     ∧ ∀ σ', accept_const P S v this σ = Ok (tt, σ') →
             st_calls σ' = st_calls σ ++ [CVisit (add_const S) this]).
Proof.
  intros Hobj Hdyn. split; intros e He.
  - pose proof (accept_eq S v this σ o e Hobj Hdyn He) as Heq.
    split; [exact Heq|]. intros σ'. rewrite Heq. apply call_visit_log.
  - pose proof (accept_const_eq S v this σ o e Hobj Hdyn He) as Heq.
    split; [exact Heq|]. intros σ'. rewrite Heq. apply call_visit_log.
Qed.

(** [accept] on a live object, case by case. *)
Lemma accept_unfold S v this σ o :
  st_objs σ !! this = Some o →
  accept P S v this σ =
    if negb (ndebug P) && negb (bool_decide (o_dyn o = q_class S)) then Abort
    else match v_entry v S with
         | None => Rejected
         | Some e =>
             if is_a P (o_dyn o) (q_class S) then call_visit e S this σ
             else Undefined
         end.
Proof.
  intros Hobj.
  unfold accept, bind, typeid_this, assert, ret, fail, static_cast_visitor,
    static_cast_this, typeid_type, bind, typeid_this, ret, fail.
  rewrite Hobj.
  destruct (ndebug P), (bool_decide (o_dyn o = q_class S)); cbn;
    try reflexivity;
    destruct (v_entry v S) as [e|]; cbn; try reflexivity;
    rewrite ?Hobj; destruct (is_a P (o_dyn o) (q_class S)); reflexivity.
Qed.

Lemma accept_const_unfold S v this σ o :
  st_objs σ !! this = Some o →
  accept_const P S v this σ =
    if negb (ndebug P) && negb (bool_decide (o_dyn o = q_class S)) then Abort
    else match v_entry v (add_const S) with
         | None => Rejected
         | Some e =>
             if is_a P (o_dyn o) (q_class S) then call_visit e (add_const S) this σ
             else Undefined
         end.
Proof.
  intros Hobj.
  unfold accept_const, bind, typeid_this, assert, ret, fail, static_cast_visitor,
    static_cast_this, typeid_type, bind, typeid_this, ret, fail.
  cbn [add_const q_class]. rewrite Hobj.
  destruct (ndebug P), (bool_decide (o_dyn o = q_class S)); cbn;
    try reflexivity;
    destruct (v_entry v (add_const S)) as [e|]; cbn; try reflexivity;
    rewrite ?Hobj; destruct (is_a P (o_dyn o) (q_class S)); reflexivity.
Qed.

(** [accept] ends in a failed assertion exactly in a debug build on an
    object whose dynamic type is not the class of [S]. *)
Lemma accept_abort_iff S v this σ o :
  st_objs σ !! this = Some o →
  accept P S v this σ = Abort ↔ ndebug P = false ∧ o_dyn o ≠ q_class S.
Proof.
  intros Hobj. rewrite (accept_unfold S v this σ o Hobj).
  destruct (ndebug P); cbn [negb andb];
    [|destruct (bool_decide_reflect (o_dyn o = q_class S)) as [Heq|Hne]; cbn [negb]];
    try (split; [intros _; split; [reflexivity|assumption] | reflexivity]);
    (split; [|intros [? ?]; congruence]);
    destruct (v_entry v S) as [e|]; try discriminate;
    destruct (is_a P (o_dyn o) (q_class S)); try discriminate;
    intros H; exfalso; exact (call_visit_not_abort _ _ _ _ H).
Qed.

Lemma accept_const_abort_iff S v this σ o :
  st_objs σ !! this = Some o →
  accept_const P S v this σ = Abort ↔ ndebug P = false ∧ o_dyn o ≠ q_class S.
Proof.
  intros Hobj. rewrite (accept_const_unfold S v this σ o Hobj).
  destruct (ndebug P); cbn [negb andb];
    [|destruct (bool_decide_reflect (o_dyn o = q_class S)) as [Heq|Hne]; cbn [negb]];
    try (split; [intros _; split; [reflexivity|assumption] | reflexivity]);
    (split; [|intros [? ?]; congruence]);
    destruct (v_entry v (add_const S)) as [e|]; try discriminate;
    destruct (is_a P (o_dyn o) (q_class S)); try discriminate;
    intros H; exfalso; exact (call_visit_not_abort _ _ _ _ H).
Qed.

(** C2. For an object whose dynamic type is [S], the assertion at the
    start of [accept] and of the const [accept] holds: neither call ends in
    the assertion failure.  On a mismatch the assertion is what stops the
    call in a debug build, and with [NDEBUG] nothing stops it. *)
Theorem accept_assertion_holds S v this σ o :
  st_objs σ !! this = Some o →
  (o_dyn o = q_class S →
     accept P S v this σ ≠ Abort ∧ accept_const P S v this σ ≠ Abort)
  ∧ (o_dyn o ≠ q_class S → ndebug P = false →
     accept P S v this σ = Abort ∧ accept_const P S v this σ = Abort)
  ∧ (o_dyn o ≠ q_class S → ndebug P = true →
     accept P S v this σ ≠ Abort ∧ accept_const P S v this σ ≠ Abort).
Proof.
  intros Hobj.
  pose proof (accept_abort_iff S v this σ o Hobj) as Ha.
  pose proof (accept_const_abort_iff S v this σ o Hobj) as Hc.
  split; [|split].
  - intros Hdyn. split; intros Hab.
    + apply Ha in Hab. tauto.
    + apply Hc in Hab. tauto.
  - intros Hne Hdebug. split; [apply Ha | apply Hc]; tauto.
  - intros Hne Hrelease. split; intros Hab.
    + apply Ha in Hab. destruct Hab. congruence.
    + apply Hc in Hab. destruct Hab. congruence.
Qed.

(** When the probe finds no entry point, the call returns [false] in the
    state it was made in. *)
Lemma tryAccept_none S v this σ :
  v_entry v S = None → tryAccept P S v this σ = Ok (false, σ).
Proof. unfold tryAccept, dynamic_cast_visitor. intros ->. reflexivity. Qed.

Lemma tryAcceptConst_none S v this σ :
  v_entry v (add_const S) = None → tryAcceptConst P S v this σ = Ok (false, σ).
Proof. unfold tryAcceptConst, dynamic_cast_visitor. intros ->. reflexivity. Qed.

Lemma tryAccept_some S v this σ o e :
  st_objs σ !! this = Some o → is_a P (o_dyn o) (q_class S) = true →
  v_entry v S = Some e →
  tryAccept P S v this σ = bind (call_visit e S this) (fun _ => ret true) σ.
Proof.
  intros Hobj Hisa He. unfold tryAccept, dynamic_cast_visitor. rewrite He.
  rewrite (bind_ok _ _ σ this σ); [reflexivity|].
  exact (static_cast_this_ok S this σ o Hobj Hisa).
Qed.

Lemma tryAcceptConst_some S v this σ o e :
  st_objs σ !! this = Some o → is_a P (o_dyn o) (q_class S) = true →
  v_entry v (add_const S) = Some e →
  tryAcceptConst P S v this σ
  = bind (call_visit e (add_const S) this) (fun _ => ret true) σ.
Proof.
  intros Hobj Hisa He. unfold tryAcceptConst, dynamic_cast_visitor. rewrite He.
  rewrite (bind_ok _ _ σ this σ); [reflexivity|].
  exact (static_cast_this_ok (add_const S) this σ o Hobj Hisa).
Qed.

(** A probe that returns [true] has found an entry point. *)
Lemma tryAccept_true_entry S v this σ σ' :
  tryAccept P S v this σ = Ok (true, σ') → is_Some (v_entry v S).
Proof.
  unfold tryAccept, dynamic_cast_visitor.
  destruct (v_entry v S) as [e|]; [eauto|]. intros [=].
Qed.

Lemma tryAcceptConst_true_entry S v this σ σ' :
  tryAcceptConst P S v this σ = Ok (true, σ') → is_Some (v_entry v (add_const S)).
Proof.
  unfold tryAcceptConst, dynamic_cast_visitor.
  destruct (v_entry v (add_const S)) as [e|]; [eauto|]. intros [=].
Qed.

(** C3. When the visitor has an entry point for [S], [tryAccept] on an [S]
    object is one call of that entry point on the probed object followed by
    [return true]: when the call returns, [tryAccept] returns [true] in the
    state the call left, whose log has grown by that single call.  The same
    for [tryAcceptConst] and the entry point for [const S]. *)
Theorem tryAccept_dispatches_once S v this σ o :
  st_objs σ !! this = Some o →
  is_a P (o_dyn o) (q_class S) = true →
  (∀ e, v_entry v S = Some e →
     tryAccept P S v this σ = bind (call_visit e S this) (fun _ => ret true) σ
     ∧ ∀ σ', call_visit e S this σ = Ok (tt, σ') →
         tryAccept P S v this σ = Ok (true, σ')
         ∧ st_calls σ' = st_calls σ ++ [CVisit S this])
  ∧ (∀ e, v_entry v (add_const S) = Some e →
     tryAcceptConst P S v this σ
     = bind (call_visit e (add_const S) this) (fun _ => ret true) σ
     ∧ ∀ σ', call_visit e (add_const S) this σ = Ok (tt, σ') →
         tryAcceptConst P S v this σ = Ok (true, σ')
         ∧ st_calls σ' = st_calls σ ++ [CVisit (add_const S) this]).
Proof.
  intros Hobj Hisa. split; intros e He.
  - pose proof (tryAccept_some S v this σ o e Hobj Hisa He) as Heq.
    split; [exact Heq|]. intros σ' Hcall. split.
    + rewrite Heq. rewrite (bind_ok _ _ _ _ _ Hcall). reflexivity.
    + exact (call_visit_log _ _ _ _ _ Hcall).
  - pose proof (tryAcceptConst_some S v this σ o e Hobj Hisa He) as Heq.
    split; [exact Heq|]. intros σ' Hcall. split.
    + rewrite Heq. rewrite (bind_ok _ _ _ _ _ Hcall). reflexivity.
    + exact (call_visit_log _ _ _ _ _ Hcall).
Qed.

(** C4. When the visitor has no entry point for [S], [tryAccept] returns
    [false] normally and the whole state is as before: the objects, the
    visitor's data and the log of calls.  The same for [tryAcceptConst] and
    [const S]. *)
Theorem tryAccept_unhandled_is_false S v this σ :
  (v_entry v S = None → tryAccept P S v this σ = Ok (false, σ))
  ∧ (v_entry v (add_const S) = None → tryAcceptConst P S v this σ = Ok (false, σ)).
Proof. split; [apply tryAccept_none | apply tryAcceptConst_none]. Qed.

(** An [Impl] over [const] types has no entry point for a type that is
    not [const]. *)
Lemma Impl_const_only (Ts : list qtype) (f : qtype → body (value := value) U) S :
  q_const S = false → v_entry (Impl (ConstVisitor Ts) f) S = None.
Proof.
  intros Hnc. cbn. destruct (decide (S ∈ ConstVisitor Ts)) as [Hin|]; [|reflexivity].
  unfold ConstVisitor in Hin. apply list_elem_of_fmap in Hin as (T & -> & _).
  discriminate.
Qed.

(** C10. The two probes are independent.  [tryAccept] returns [true] only
    if the visitor has the entry point for [S] itself; with a visitor that
    has only the one for [const S] it returns [false], as it does with the
    library's own [Impl] of a const visitor when [S] is not [const].
    Symmetrically [tryAcceptConst] needs the entry point for [const S] and
    returns [false] with a visitor that has only the one for [S]. *)
Theorem tryAccept_const_independent S v this σ :
  (∀ σ', tryAccept P S v this σ = Ok (true, σ') → is_Some (v_entry v S))
  ∧ (v_entry v S = None → is_Some (v_entry v (add_const S)) →
     tryAccept P S v this σ = Ok (false, σ))
  ∧ (∀ Ts f, q_const S = false →
     tryAccept P S (Impl (ConstVisitor Ts) f) this σ = Ok (false, σ))
  ∧ (∀ σ', tryAcceptConst P S v this σ = Ok (true, σ') →
     is_Some (v_entry v (add_const S)))
  ∧ (v_entry v (add_const S) = None → is_Some (v_entry v S) →
     tryAcceptConst P S v this σ = Ok (false, σ)).
Proof.
  repeat split.
  - apply tryAccept_true_entry.
  - intros Hnone _. apply tryAccept_none, Hnone.
  - intros Ts f Hnc. apply tryAccept_none, Impl_const_only, Hnc.
  - apply tryAcceptConst_true_entry.
  - intros Hnone _. apply tryAcceptConst_none, Hnone.
Qed.

End DispatchFacts.

(** ** Cloning *)

Section CloneFacts.

Context {value OutputStream : Type} (P : program (value := value) OutputStream).
Implicit Types (S : qtype) (Ts : list qtype) (client : addr).
Implicit Types (objs : gmap addr (object value)) (o : object value).

(** The body of the acyclic [clone] on a live object whose class takes
    [tryAcceptConst] from [AcyclicVisitable<S>], case by case: the pointer
    returned, the local [cloner] as it is destroyed, and the objects. *)
Lemma clone_acyclic_run Ts client objs o S :
  objs !! client = Some o →
  acyclic_visitable_of P (o_dyn o) = Some S →
  run (bind (virtual_tryAcceptConst P (Impl (ConstVisitor Ts) (Cloner_call P)) client)
         (fun _ => return_copy)) objs (MkCloner None) =
    if decide (add_const S ∈ ConstVisitor Ts) then
      if is_a P (o_dyn o) (q_class S) then
        let p := fresh (dom objs) in
        Ok (Some p, MkCloner None,
            <[p := Obj (q_class S) (copy_ctor P (q_class S) (o_val o))]> objs)
      else Undefined
    else Ok (None, MkCloner None, objs).
Proof.
  intros Hobj Hcap.
  unfold run, virtual_tryAcceptConst, bind, typeid_this.
  cbn [st_objs]. rewrite Hobj, Hcap.
  unfold tryAcceptConst, dynamic_cast_visitor, Impl. cbn [v_entry].
  destruct (decide (add_const S ∈ ConstVisitor Ts)) as [Hin|Hnin]; [|reflexivity].
  unfold bind, static_cast_this, bind, typeid_this, ret, fail. cbn [st_objs].
  rewrite Hobj. cbn [add_const q_class].
  destruct (is_a P (o_dyn o) (q_class S)); [|reflexivity].
  unfold call_visit, Cloner_call. cbn. rewrite Hobj. reflexivity.
Qed.

Lemma clone_acyclic_unfold Ts client objs o S :
  objs !! client = Some o →
  acyclic_visitable_of P (o_dyn o) = Some S →
  clone_acyclic P Ts client objs =
    if decide (add_const S ∈ ConstVisitor Ts) then
      if is_a P (o_dyn o) (q_class S) then
        let p := fresh (dom objs) in
        Ok (Some p, <[p := Obj (q_class S) (copy_ctor P (q_class S) (o_val o))]> objs)
      else Undefined
    else Ok (None, objs).
Proof.
  intros Hobj Hcap. unfold clone_acyclic.
  rewrite (clone_acyclic_run Ts client objs o S Hobj Hcap).
  destruct (decide (add_const S ∈ ConstVisitor Ts)); [|reflexivity].
  destruct (is_a P (o_dyn o) (q_class S)); reflexivity.
Qed.

(** The same for the closed [clone] on a live object whose class takes
    [accept] from [Visitable<S>]. *)
Lemma clone_run Ts client objs o S :
  objs !! client = Some o →
  visitable_of P (o_dyn o) = Some S →
  run (bind (virtual_accept_const P (Impl (ConstVisitor Ts) (Cloner_call P)) client)
         (fun _ => return_copy)) objs (MkCloner None) =
    if negb (ndebug P) && negb (bool_decide (o_dyn o = q_class S)) then Abort
    else if decide (add_const S ∈ ConstVisitor Ts) then
      if is_a P (o_dyn o) (q_class S) then
        let p := fresh (dom objs) in
        Ok (Some p, MkCloner None,
            <[p := Obj (q_class S) (copy_ctor P (q_class S) (o_val o))]> objs)
      else Undefined
    else Rejected.
Proof.
  intros Hobj Hcap.
  unfold run, virtual_accept_const.
  unfold bind at 1. unfold bind at 1. unfold typeid_this at 1.
  cbn [st_objs]. rewrite Hobj, Hcap.
  rewrite (accept_const_unfold P S _ client _ o) by exact Hobj.
  destruct (negb (ndebug P) && negb (bool_decide (o_dyn o = q_class S)));
    [reflexivity|].
  unfold Impl. cbn [v_entry].
  destruct (decide (add_const S ∈ ConstVisitor Ts)) as [Hin|Hnin]; [|reflexivity].
  destruct (is_a P (o_dyn o) (q_class S)); [|reflexivity].
  unfold call_visit, Cloner_call. cbn. rewrite Hobj. reflexivity.
Qed.

Lemma clone_unfold Ts client objs o S :
  objs !! client = Some o →
  visitable_of P (o_dyn o) = Some S →
  clone P Ts client objs =
    if negb (ndebug P) && negb (bool_decide (o_dyn o = q_class S)) then Abort
    else if decide (add_const S ∈ ConstVisitor Ts) then
      if is_a P (o_dyn o) (q_class S) then
        let p := fresh (dom objs) in
        Ok (Some p, <[p := Obj (q_class S) (copy_ctor P (q_class S) (o_val o))]> objs)
      else Undefined
    else Rejected.
Proof.
  intros Hobj Hcap. unfold clone.
  rewrite (clone_run Ts client objs o S Hobj Hcap).
  destruct (negb (ndebug P) && negb (bool_decide (o_dyn o = q_class S)));
    [reflexivity|].
  destruct (decide (add_const S ∈ ConstVisitor Ts)); [|reflexivity].
  destruct (is_a P (o_dyn o) (q_class S)); reflexivity.
Qed.

(** In a debug build the closed [clone] returns only for an object whose
    dynamic type is the type of its capability. *)
Lemma clone_debug_returns_dyn Ts client objs o S r :
  objs !! client = Some o →
  visitable_of P (o_dyn o) = Some S →
  ndebug P = false →
  clone P Ts client objs = Ok r → o_dyn o = q_class S.
Proof.
  intros Hobj Hcap Hdebug. rewrite (clone_unfold Ts client objs o S Hobj Hcap), Hdebug.
  destruct (bool_decide_reflect (o_dyn o = q_class S)) as [Heq|Hne];
    [intros _; exact Heq | discriminate].
Qed.

(** [const S] is among the types of [V::ConstVisitor] exactly when the
    class of [S] is the class of one of the types of [V]. *)
Lemma ConstVisitor_handles S Ts :
  add_const S ∈ ConstVisitor Ts ↔ q_class S ∈ (q_class <$> Ts).
Proof.
  unfold ConstVisitor. rewrite !list_elem_of_fmap. split.
  - intros (T & Heq & Hin). exists T. split; [|exact Hin].
    unfold add_const in Heq. congruence.
  - intros (T & Heq & Hin). exists T. split; [|exact Hin].
    unfold add_const. congruence.
Qed.

Lemma fresh_not_live objs : objs !! fresh (dom objs) = None.
Proof. apply not_elem_of_dom, is_fresh. Qed.

(** C5, amended.  Let [v] be an object whose dynamic type is the type [S]
    of its own visitable capability, and let [V] handle [S].  Then both
    [clone] overloads return a pointer [p] to an object that did not exist
    before, at an address other than [v]'s, and after the call the only
    change to the objects is that new one: it has [v]'s dynamic type and
    the value [S]'s copy constructor made of [v]'s value (it equals [v]
    when the copy constructor copies the value); [v] is untouched, and
    writing to the clone leaves [v] as it is.  The pointer returned is the
    only owner: the slot of the local [cloner] is null when it is
    destroyed, and the new object is still there afterwards. *)
Theorem clone_round_trip Ts client objs o S :
  objs !! client = Some o →
  o_dyn o = q_class S →
  add_const S ∈ ConstVisitor Ts →
  ∃ p o',
    objs !! p = None ∧ p ≠ client
    ∧ o_dyn o' = o_dyn o
    ∧ o_val o' = copy_ctor P (o_dyn o) (o_val o)
    ∧ (copy_ctor P (o_dyn o) (o_val o) = o_val o → o' = o)
    ∧ (visitable_of P (o_dyn o) = Some S →
       clone P Ts client objs = Ok (Some p, <[p := o']> objs)
       ∧ run (bind (virtual_accept_const P
                      (Impl (ConstVisitor Ts) (Cloner_call P)) client)
                (fun _ => return_copy)) objs (MkCloner None)
         = Ok (Some p, MkCloner None, <[p := o']> objs))
    ∧ (acyclic_visitable_of P (o_dyn o) = Some S →
       clone_acyclic P Ts client objs = Ok (Some p, <[p := o']> objs)
       ∧ run (bind (virtual_tryAcceptConst P
                      (Impl (ConstVisitor Ts) (Cloner_call P)) client)
                (fun _ => return_copy)) objs (MkCloner None)
         = Ok (Some p, MkCloner None, <[p := o']> objs))
    ∧ (<[p := o']> objs) !! p = Some o'
    ∧ (<[p := o']> objs) !! client = Some o
    ∧ ∀ o'', (<[p := o'']> (<[p := o']> objs)) !! client = Some o.
Proof.
  intros Hobj Hdyn Hin.
  pose proof (fresh_not_live objs) as Hfresh.
  assert (fresh (dom objs) ≠ client) as Hne by congruence.
  exists (fresh (dom objs)), (Obj (o_dyn o) (copy_ctor P (o_dyn o) (o_val o))).
  split; [exact Hfresh|]. split; [exact Hne|].
  split; [reflexivity|]. split; [reflexivity|].
  split; [intros Hcopy; rewrite Hcopy; destruct o; reflexivity|].
  split; [|split; [|split; [|split]]].
  - intros Hcap.
    rewrite (clone_unfold Ts client objs o S Hobj Hcap).
    rewrite (clone_run Ts client objs o S Hobj Hcap).
    rewrite bool_decide_eq_true_2 by exact Hdyn. rewrite andb_false_r.
    destruct (decide (add_const S ∈ ConstVisitor Ts)); [|contradiction].
    rewrite Hdyn, is_a_refl. split; reflexivity.
  - intros Hcap.
    rewrite (clone_acyclic_unfold Ts client objs o S Hobj Hcap).
    rewrite (clone_acyclic_run Ts client objs o S Hobj Hcap).
    destruct (decide (add_const S ∈ ConstVisitor Ts)); [|contradiction].
    rewrite Hdyn, is_a_refl. split; reflexivity.
  - apply lookup_insert_eq.
  - rewrite lookup_insert_ne by exact Hne. exact Hobj.
  - intros o''. rewrite !lookup_insert_ne by exact Hne. exact Hobj.
Qed.

(** C6, amended.  When the type [S] under which the object is visitable
    (the argument of the [AcyclicVisitable] base that supplies its
    [tryAcceptConst]) is not handled by [V], the acyclic [clone] returns a
    null pointer normally and leaves the objects as they were. *)
Theorem clone_acyclic_unhandled_is_empty Ts client objs o S :
  objs !! client = Some o →
  acyclic_visitable_of P (o_dyn o) = Some S →
  q_class S ∉ (q_class <$> Ts) →
  clone_acyclic P Ts client objs = Ok (None, objs).
Proof.
  intros Hobj Hcap Hnin.
  rewrite (clone_acyclic_unfold Ts client objs o S Hobj Hcap).
  rewrite decide_False; [reflexivity|].
  rewrite ConstVisitor_handles. exact Hnin.
Qed.

End CloneFacts.

(** ** Printing *)

Section PrintFacts.

Context {value OutputStream : Type} (P : program (value := value) OutputStream).
Implicit Types (S : qtype) (Ts : list qtype) (client : addr) (os : OutputStream).
Implicit Types (objs : gmap addr (object value)) (o : object value).

(** The acyclic [print], case by case. *)
Lemma print_acyclic_unfold Ts os client objs :
  print_acyclic P Ts os client objs =
    match objs !! client with
    | None => Undefined
    | Some o =>
        match acyclic_visitable_of P (o_dyn o) with
        | None => Rejected
        | Some q =>
            if decide (add_const q ∈ ConstVisitor Ts) then
              if is_a P (o_dyn o) (q_class q)
              then Ok (stream_insert P os (q_class q) (o_val o), objs)
              else Undefined
            else Ok (os, objs)
        end
    end.
Proof.
  unfold print_acyclic, run, virtual_tryAcceptConst, bind, typeid_this.
  cbn [st_objs]. destruct (objs !! client) as [o|] eqn:Hobj; [|reflexivity].
  destruct (acyclic_visitable_of P (o_dyn o)) as [S|]; [|reflexivity].
  unfold tryAcceptConst, dynamic_cast_visitor, makeImpl, Impl. cbn [v_entry].
  destruct (decide (add_const S ∈ ConstVisitor Ts)) as [Hin|Hnin]; [|reflexivity].
  unfold bind, static_cast_this, bind, typeid_this, ret, fail. cbn [st_objs].
  rewrite Hobj. cbn [add_const q_class].
  destruct (is_a P (o_dyn o) (q_class S)); [|reflexivity].
  unfold call_visit, Streamer_call. cbn. rewrite Hobj. reflexivity.
Qed.

(** The closed [print], case by case. *)
Lemma print_unfold Ts os client objs :
  print P Ts os client objs =
    match objs !! client with
    | None => Undefined
    | Some o =>
        match visitable_of P (o_dyn o) with
        | None => Rejected
        | Some q =>
            if negb (ndebug P) && negb (bool_decide (o_dyn o = q_class q)) then Abort
            else if decide (add_const q ∈ ConstVisitor Ts) then
              if is_a P (o_dyn o) (q_class q)
              then Ok (stream_insert P os (q_class q) (o_val o), objs)
              else Undefined
            else Rejected
        end
    end.
Proof.
  unfold print, run, virtual_accept_const.
  unfold bind at 1. unfold typeid_this at 1.
  cbn [st_objs]. destruct (objs !! client) as [o|] eqn:Hobj; [|reflexivity].
  destruct (visitable_of P (o_dyn o)) as [S|]; [|reflexivity].
  rewrite (accept_const_unfold P S _ client _ o) by exact Hobj.
  destruct (negb (ndebug P) && negb (bool_decide (o_dyn o = q_class S)));
    [reflexivity|].
  unfold makeImpl, Impl. cbn [v_entry].
  destruct (decide (add_const S ∈ ConstVisitor Ts)) as [Hin|Hnin]; [|reflexivity].
  destruct (is_a P (o_dyn o) (q_class S)); [|reflexivity].
  unfold call_visit, Streamer_call. cbn. rewrite Hobj. reflexivity.
Qed.

(** A failed probe leaves the state as it was, whatever the visitor. *)
Lemma virtual_tryAcceptConst_false {U} (v : visitor (value := value) U) client
    (σ σ' : state U) :
  virtual_tryAcceptConst P v client σ = Ok (false, σ') → σ' = σ.
Proof.
  unfold virtual_tryAcceptConst, bind, typeid_this.
  destruct (st_objs σ !! client) as [o|] eqn:Hobj; [|discriminate].
  destruct (acyclic_visitable_of P (o_dyn o)) as [S|]; [|discriminate].
  unfold tryAcceptConst, dynamic_cast_visitor.
  destruct (v_entry v (add_const S)) as [e|]; [|intros [= <-]; reflexivity].
  unfold bind, static_cast_this, bind, typeid_this, ret, fail. rewrite Hobj.
  destruct (is_a P (o_dyn o) (q_class (add_const S))); [|discriminate].
  destruct (call_visit e (add_const S) client σ) as [[[] σ1]| | | |]; discriminate.
Qed.

(** C8. When the dispatch fails, that is when [tryAcceptConst] returns
    [false], which it does when [V] does not handle the type [S] under
    which the object is visitable, the acyclic [print] returns normally
    with the stream and the objects as they were.  In every case in which
    [print] returns, in either overload, the objects are as before and the
    stream is the one given or the one given after a single insertion
    [os << t]; so if insertion only appends to what the stream has
    received, [print] only appends. *)
Theorem print_only_appends Ts os client objs :
  (∀ σ', virtual_tryAcceptConst P (makeImpl (ConstVisitor Ts) (Streamer_call P))
           client (State objs [] os) = Ok (false, σ') →
         print_acyclic P Ts os client objs = Ok (os, objs))
  ∧ (∀ o S, objs !! client = Some o →
       acyclic_visitable_of P (o_dyn o) = Some S →
       q_class S ∉ (q_class <$> Ts) →
       print_acyclic P Ts os client objs = Ok (os, objs))
  ∧ (∀ os' objs',
       print_acyclic P Ts os client objs = Ok (os', objs')
       ∨ print P Ts os client objs = Ok (os', objs') →
       objs' = objs ∧ (os' = os ∨ ∃ T x, os' = stream_insert P os T x))
  ∧ (∀ (D : Type) (written : OutputStream → list D),
       (∀ s T x, ∃ d, written (stream_insert P s T x) = written s ++ d) →
       ∀ os' objs',
         print_acyclic P Ts os client objs = Ok (os', objs')
         ∨ print P Ts os client objs = Ok (os', objs') →
         ∃ d, written os' = written os ++ d).
Proof.
  assert (∀ os' objs',
       print_acyclic P Ts os client objs = Ok (os', objs')
       ∨ print P Ts os client objs = Ok (os', objs') →
       objs' = objs ∧ (os' = os ∨ ∃ T x, os' = stream_insert P os T x)) as Hret.
  { intros os' objs'. rewrite print_acyclic_unfold, print_unfold.
    destruct (objs !! client) as [o|]; [|intros [|]; discriminate].
    intros [Hp|Hp].
    - destruct (acyclic_visitable_of P (o_dyn o)) as [S|]; [|discriminate].
      destruct (decide (add_const S ∈ ConstVisitor Ts));
        [destruct (is_a P (o_dyn o) (q_class S))|];
        try discriminate; injection Hp as <- <-; eauto.
    - destruct (visitable_of P (o_dyn o)) as [S|]; [|discriminate].
      destruct (negb (ndebug P) && negb (bool_decide (o_dyn o = q_class S)));
        [discriminate|].
      destruct (decide (add_const S ∈ ConstVisitor Ts)); [|discriminate].
      destruct (is_a P (o_dyn o) (q_class S)); [|discriminate].
      injection Hp as <- <-; eauto. }
  split; [|split; [|split]].
  - intros σ' Hfalse. unfold print_acyclic, run. rewrite Hfalse.
    rewrite (virtual_tryAcceptConst_false _ _ _ _ Hfalse). reflexivity.
  - intros o S Hobj Hcap Hnin. rewrite print_acyclic_unfold, Hobj, Hcap.
    rewrite decide_False; [reflexivity|].
    rewrite ConstVisitor_handles. exact Hnin.
  - exact Hret.
  - intros D written Happ os' objs' Hp.
    destruct (Hret os' objs' Hp) as [_ [->|(T & x & ->)]]; [|apply Happ].
    exists []. rewrite app_nil_r. reflexivity.
Qed.

(** C9. [print] is a function of the stream it is given and of the object
    it prints: two runs with equal streams, in stores that agree on that
    object, end alike and leave equal streams, in either overload.  In
    particular a second run on the objects the first one left, started
    from the same stream, yields the same stream again. *)
Theorem print_deterministic Ts os client objs1 objs2 :
  objs1 !! client = objs2 !! client →
  result_map fst (print P Ts os client objs1)
  = result_map fst (print P Ts os client objs2)
  ∧ result_map fst (print_acyclic P Ts os client objs1)
    = result_map fst (print_acyclic P Ts os client objs2)
  ∧ (∀ os1 objs1', print P Ts os client objs1 = Ok (os1, objs1') →
       print P Ts os client objs1' = Ok (os1, objs1'))
  ∧ (∀ os1 objs1', print_acyclic P Ts os client objs1 = Ok (os1, objs1') →
       print_acyclic P Ts os client objs1' = Ok (os1, objs1')).
Proof.
  intros Hagree. rewrite !print_unfold, !print_acyclic_unfold, <- Hagree.
  split; [|split; [|split]].
  - destruct (objs1 !! client) as [o|]; [|reflexivity].
    destruct (visitable_of P (o_dyn o)) as [S|]; [|reflexivity].
    repeat (case_match; try reflexivity).
  - destruct (objs1 !! client) as [o|]; [|reflexivity].
    destruct (acyclic_visitable_of P (o_dyn o)) as [S|]; [|reflexivity].
    repeat (case_match; try reflexivity).
  - intros os1 objs1' Hrun.
    assert (objs1' = objs1) as ->.
    { destruct (objs1 !! client) as [o|]; [|discriminate].
      repeat (case_match; try discriminate); congruence. }
    rewrite print_unfold. exact Hrun.
  - intros os1 objs1' Hrun.
    assert (objs1' = objs1) as ->.
    { destruct (objs1 !! client) as [o|]; [|discriminate].
      repeat (case_match; try discriminate); congruence. }
    rewrite print_acyclic_unfold. exact Hrun.
Qed.

End PrintFacts.

(** ** Copying an [Impl] *)

Section ImplCtorFacts.

Import ImplCtor.

Context {F : Type} (C : functor_class F) (t : impl_template).

(** Whatever the template and the form of the initialisation, overload
    resolution picks the constructor declared for the argument's own
    category; the forwarding template never wins. *)
Lemma resolve_table (k : init) :
  resolve t k lvalue = Some FromLvalue
  ∧ resolve t k const_lvalue = Some Copy
  ∧ resolve t k rvalue = Some Move
  ∧ resolve t k const_rvalue = Some FromConstRvalue.
Proof. destruct t, k; repeat split; reflexivity. Qed.

(** C7. Initialising an [Impl<F>] from a non-const lvalue, a const lvalue
    or a const rvalue [Impl<F>] ends in the defaulted copy constructor
    (the first and the last through one delegation): the new functor is
    [F]'s const copy of the source's functor and the source's functor is
    as before.  From a non-const rvalue the defaulted move constructor
    runs, which moves the functor.  This holds for both [Impl] templates,
    for direct- and copy-initialisation, and does not depend on what else
    [F] could be initialised from. *)
Theorem Impl_copy_keeps_source (k : init) (n : nat) (other : F) :
  let fuel := S (S n) in
  (chain t fuel k lvalue = [FromLvalue; Copy]
   ∧ construct C t fuel k lvalue other = Some (F_copy C other, other))
  ∧ (chain t fuel k const_lvalue = [Copy]
     ∧ construct C t fuel k const_lvalue other = Some (F_copy C other, other))
  ∧ (chain t fuel k const_rvalue = [FromConstRvalue; Copy]
     ∧ construct C t fuel k const_rvalue other = Some (F_copy C other, other))
  ∧ (chain t fuel k rvalue = [Move]
     ∧ construct C t fuel k rvalue other = Some (F_move C other)).
Proof.
  cbn zeta.
  destruct (resolve_table k) as (Hl & Hcl & Hr & Hcr).
  destruct (resolve_table DirectInit) as (_ & Hd & _ & _).
  cbn [chain construct]. rewrite Hl, Hcl, Hr, Hcr.
  destruct n; cbn [chain construct]; rewrite Hd; repeat split; reflexivity.
Qed.

End ImplCtorFacts.

(** ** The theorems on the example program *)

(** C5, as stated, fails: the acyclic [clone] of a [Disk], which reuses the
    capability of its base [Circle], succeeds and yields a [Circle]. *)
Lemma clone_changes_dynamic_type_of_derived :
  clone_acyclic (Shapes.shapes false) Shapes.V 3 Shapes.objs0
  = Ok (Some 5, <[5 := Obj "Circle" 5%Z]> Shapes.objs0)
  ∧ o_dyn <$> ((<[5 := Obj "Circle" 5%Z]> Shapes.objs0) !! 5)
    ≠ o_dyn <$> (Shapes.objs0 !! 3).
Proof. split; [vm_compute; reflexivity | vm_compute; discriminate]. Qed.

(** C6, as stated, fails: [Disk] is the concrete type of the object at 3
    and is not among the types of [V], yet the acyclic [clone] returns an
    object. *)
Lemma clone_acyclic_of_unlisted_class_not_empty :
  o_dyn <$> (Shapes.objs0 !! 3) = Some "Disk"
  ∧ ("Disk" ∉ q_class <$> Shapes.V)
  ∧ ("Disk" ∉ q_class <$> ConstVisitor Shapes.V)
  ∧ clone_acyclic (Shapes.shapes false) Shapes.V 3 Shapes.objs0
    = Ok (Some 5, <[5 := Obj "Circle" 5%Z]> Shapes.objs0)
  ∧ clone_acyclic (Shapes.shapes false) Shapes.V 3 Shapes.objs0
    ≠ Ok (None, Shapes.objs0).
Proof.
  split; [reflexivity|].
  split; [cbn; rewrite !elem_of_cons, elem_of_nil; intros [[=]|[[=]|[]]]|].
  split; [cbn; rewrite !elem_of_cons, elem_of_nil; intros [[=]|[[=]|[]]]|].
  split; [vm_compute; reflexivity | vm_compute; discriminate].
Qed.

(** C1 on the [Circle] at address 1, with a visitor that has both entry
    points for [Circle]. *)
Lemma accept_invokes_visit_once_witness :
  (accept (Shapes.shapes false) Shapes.Circle Shapes.both_area_visitor 1 Shapes.σ0
   = call_visit (Shapes.area Shapes.Circle) Shapes.Circle 1 Shapes.σ0
   ∧ ∀ σ', accept (Shapes.shapes false) Shapes.Circle Shapes.both_area_visitor 1
             Shapes.σ0 = Ok (tt, σ') →
           st_calls σ' = [CVisit Shapes.Circle 1])
  ∧ accept_const (Shapes.shapes false) Shapes.Circle Shapes.both_area_visitor 1
      Shapes.σ0
    = call_visit (Shapes.area (add_const Shapes.Circle)) (add_const Shapes.Circle)
        1 Shapes.σ0.
Proof.
  destruct (accept_invokes_visit_once (Shapes.shapes false) Shapes.Circle
              Shapes.both_area_visitor 1 Shapes.σ0 (Obj "Circle" 2%Z))
    as [Hm Hc]; [reflexivity | reflexivity |].
  split.
  - apply (Hm (Shapes.area Shapes.Circle)). reflexivity.
  - apply (Hc (Shapes.area (add_const Shapes.Circle))). reflexivity.
Defined.

(** C2 on the [Circle] at 1 and, for the mismatch, on the [Disk] at 3, in a
    debug and in a release build. *)
Lemma accept_assertion_holds_witness :
  (accept (Shapes.shapes false) Shapes.Circle Shapes.area_visitor 1 Shapes.σ0 ≠ Abort
   ∧ accept_const (Shapes.shapes false) Shapes.Circle Shapes.area_visitor 1
       Shapes.σ0 ≠ Abort)
  ∧ (accept (Shapes.shapes false) Shapes.Circle Shapes.area_visitor 3 Shapes.σ0 = Abort
     ∧ accept_const (Shapes.shapes false) Shapes.Circle Shapes.area_visitor 3
         Shapes.σ0 = Abort)
  ∧ (accept (Shapes.shapes true) Shapes.Circle Shapes.area_visitor 3 Shapes.σ0 ≠ Abort
     ∧ accept_const (Shapes.shapes true) Shapes.Circle Shapes.area_visitor 3
         Shapes.σ0 ≠ Abort).
Proof.
  split; [|split].
  - destruct (accept_assertion_holds (Shapes.shapes false) Shapes.Circle
                Shapes.area_visitor 1 Shapes.σ0 (Obj "Circle" 2%Z))
      as (Hsame & _ & _); [reflexivity|].
    apply Hsame. reflexivity.
  - destruct (accept_assertion_holds (Shapes.shapes false) Shapes.Circle
                Shapes.area_visitor 3 Shapes.σ0 (Obj "Disk" 5%Z))
      as (_ & Hdebug & _); [reflexivity|].
    apply Hdebug; [discriminate | reflexivity].
  - destruct (accept_assertion_holds (Shapes.shapes true) Shapes.Circle
                Shapes.area_visitor 3 Shapes.σ0 (Obj "Disk" 5%Z))
      as (_ & _ & Hrelease); [reflexivity|].
    apply Hrelease; [discriminate | reflexivity].
Defined.

(** C3 on the [Disk] at 3, which is a [Circle]. *)
Lemma tryAccept_dispatches_once_witness :
  (tryAccept (Shapes.shapes false) Shapes.Circle Shapes.both_area_visitor 3 Shapes.σ0
   = Ok (true, State Shapes.objs0 [CVisit Shapes.Circle 3] 75%Z)
   ∧ st_calls (State Shapes.objs0 [CVisit Shapes.Circle 3] 75%Z)
     = st_calls Shapes.σ0 ++ [CVisit Shapes.Circle 3])
  ∧ (tryAcceptConst (Shapes.shapes false) Shapes.Circle Shapes.both_area_visitor 3
       Shapes.σ0
     = Ok (true, State Shapes.objs0 [CVisit (add_const Shapes.Circle) 3] 75%Z)
     ∧ st_calls (State Shapes.objs0 [CVisit (add_const Shapes.Circle) 3] 75%Z)
       = st_calls Shapes.σ0 ++ [CVisit (add_const Shapes.Circle) 3]).
Proof.
  destruct (tryAccept_dispatches_once (Shapes.shapes false) Shapes.Circle
              Shapes.both_area_visitor 3 Shapes.σ0 (Obj "Disk" 5%Z))
    as [Hm Hc]; [reflexivity | reflexivity |].
  split.
  - destruct (Hm (Shapes.area Shapes.Circle)) as [_ Hok]; [reflexivity|].
    apply Hok. vm_compute. reflexivity.
  - destruct (Hc (Shapes.area (add_const Shapes.Circle))) as [_ Hok]; [reflexivity|].
    apply Hok. vm_compute. reflexivity.
Defined.

(** C4 on the [Triangle] at 4, for which the area visitors have no entry
    point. *)
Lemma tryAccept_unhandled_is_false_witness :
  tryAccept (Shapes.shapes false) Shapes.Triangle Shapes.area_visitor 4 Shapes.σ0
  = Ok (false, Shapes.σ0)
  ∧ tryAcceptConst (Shapes.shapes false) Shapes.Triangle Shapes.const_area_visitor 4
      Shapes.σ0
    = Ok (false, Shapes.σ0).
Proof.
  split.
  - destruct (tryAccept_unhandled_is_false (Shapes.shapes false) Shapes.Triangle
                Shapes.area_visitor 4 Shapes.σ0) as [Hm _].
    apply Hm. reflexivity.
  - destruct (tryAccept_unhandled_is_false (Shapes.shapes false) Shapes.Triangle
                Shapes.const_area_visitor 4 Shapes.σ0) as [_ Hc].
    apply Hc. reflexivity.
Defined.

(** C10 on the [Circle] at 1, with the const-only and the mutable-only area
    visitor. *)
Lemma tryAccept_const_independent_witness :
  tryAccept (Shapes.shapes false) Shapes.Circle Shapes.const_area_visitor 1 Shapes.σ0
  = Ok (false, Shapes.σ0)
  ∧ tryAcceptConst (Shapes.shapes false) Shapes.Circle Shapes.area_visitor 1 Shapes.σ0
    = Ok (false, Shapes.σ0).
Proof.
  split.
  - destruct (tryAccept_const_independent (Shapes.shapes false) Shapes.Circle
                Shapes.const_area_visitor 1 Shapes.σ0) as (_ & Hm & _).
    apply Hm; [reflexivity|]. exists (Shapes.area (add_const Shapes.Circle)).
    reflexivity.
  - destruct (tryAccept_const_independent (Shapes.shapes false) Shapes.Circle
                Shapes.area_visitor 1 Shapes.σ0) as (_ & _ & _ & _ & Hc).
    apply Hc; [reflexivity|]. exists (Shapes.area Shapes.Circle). reflexivity.
Defined.

(** C5, amended, on the [Circle] at 1, whose copy constructor copies the
    radius. *)
Lemma clone_round_trip_witness :
  ∃ p, Shapes.objs0 !! p = None ∧ p ≠ 1
    ∧ clone (Shapes.shapes false) Shapes.V 1 Shapes.objs0
      = Ok (Some p, <[p := Obj "Circle" 2%Z]> Shapes.objs0)
    ∧ clone_acyclic (Shapes.shapes false) Shapes.V 1 Shapes.objs0
      = Ok (Some p, <[p := Obj "Circle" 2%Z]> Shapes.objs0).
Proof.
  destruct (clone_round_trip (Shapes.shapes false) Shapes.V 1 Shapes.objs0
              (Obj "Circle" 2%Z) Shapes.Circle)
    as (p & o' & Hnone & Hne & _ & _ & Hcopy & Hclosed & Hacyclic & _);
    [reflexivity | reflexivity | apply (bool_decide_unpack _); vm_compute; exact I |].
  exists p. rewrite <- (Hcopy eq_refl).
  split; [exact Hnone|]. split; [exact Hne|].
  split; [apply Hclosed | apply Hacyclic]; reflexivity.
Defined.

(** C6, amended, on the [Triangle] at 4, which [V] does not handle. *)
Lemma clone_acyclic_unhandled_is_empty_witness :
  clone_acyclic (Shapes.shapes false) Shapes.V 4 Shapes.objs0 = Ok (None, Shapes.objs0).
Proof.
  apply (clone_acyclic_unhandled_is_empty (Shapes.shapes false) Shapes.V 4
           Shapes.objs0 (Obj "Triangle" 7%Z) Shapes.Triangle);
    [reflexivity | reflexivity | apply (bool_decide_unpack _); vm_compute; exact I].
Defined.

(** C8 on the [Triangle] at 4: the stream keeps its one earlier item. *)
Lemma print_only_appends_witness :
  print_acyclic (Shapes.shapes false) Shapes.V [("Circle", 2%Z)] 4 Shapes.objs0
  = Ok ([("Circle", 2%Z)], Shapes.objs0).
Proof.
  destruct (print_only_appends (Shapes.shapes false) Shapes.V [("Circle", 2%Z)] 4
              Shapes.objs0) as (Hfalse & Hunhandled & _).
  apply (Hunhandled (Obj "Triangle" 7%Z) Shapes.Triangle);
    [reflexivity | reflexivity | apply (bool_decide_unpack _); vm_compute; exact I].
Defined.

(** C9 on the [Circle] at 1, in the example store and in the store without
    the [Square]. *)
Lemma print_deterministic_witness :
  result_map fst (print (Shapes.shapes false) Shapes.V [] 1 Shapes.objs0)
  = result_map fst (print (Shapes.shapes false) Shapes.V [] 1 (delete 2 Shapes.objs0))
  ∧ result_map fst (print_acyclic (Shapes.shapes false) Shapes.V [] 1 Shapes.objs0)
    = result_map fst
        (print_acyclic (Shapes.shapes false) Shapes.V [] 1 (delete 2 Shapes.objs0)).
Proof.
  destruct (print_deterministic (Shapes.shapes false) Shapes.V [] 1 Shapes.objs0
              (delete 2 Shapes.objs0)) as (Hclosed & Hacyclic & _);
    [reflexivity|].
  split; [exact Hclosed | exact Hacyclic].
Defined.

(** C7 on a counter at 7: copies leave the source at 7, the move takes the
    count. *)
Lemma Impl_copy_keeps_source_witness :
  ImplCtor.construct ImplCtor.counter ImplCtor.VisitorImpl 2 ImplCtor.DirectInit
    ImplCtor.lvalue 7 = Some (7, 7)
  ∧ ImplCtor.construct ImplCtor.counter ImplCtor.AcyclicVisitorImpl 2 ImplCtor.CopyInit
      ImplCtor.const_rvalue 7 = Some (7, 7)
  ∧ ImplCtor.construct ImplCtor.counter ImplCtor.AcyclicVisitorImpl 2 ImplCtor.CopyInit
      ImplCtor.rvalue 7 = Some (7, 0).
Proof.
  split; [|split].
  - apply (Impl_copy_keeps_source ImplCtor.counter ImplCtor.VisitorImpl
             ImplCtor.DirectInit 0 7).
  - apply (Impl_copy_keeps_source ImplCtor.counter ImplCtor.AcyclicVisitorImpl
             ImplCtor.CopyInit 0 7).
  - apply (Impl_copy_keeps_source ImplCtor.counter ImplCtor.AcyclicVisitorImpl
             ImplCtor.CopyInit 0 7).
Defined.

(** * Further properties of the dispatch *)

Section MoreDispatch.

Context {value OutputStream U : Type} (P : program (value := value) OutputStream).
Implicit Types (S : qtype) (v : visitor (value := value) U) (this : addr).
Implicit Types (σ : state (value := value) U) (o : object value).

Lemma accept_dangling S v this σ :
  st_objs σ !! this = None →
  accept P S v this σ = Undefined ∧ accept_const P S v this σ = Undefined.
Proof.
  intros Hnone. unfold accept, accept_const, bind, typeid_this.
  rewrite Hnone. split; reflexivity.
Qed.

(** [tryAccept] on any object, case by case. *)
Lemma tryAccept_unfold S v this σ :
  tryAccept P S v this σ =
    match v_entry v S with
    | None => Ok (false, σ)
    | Some e =>
        match st_objs σ !! this with
        | None => Undefined
        | Some o =>
            if is_a P (o_dyn o) (q_class S)
            then bind (call_visit e S this) (fun _ => ret true) σ
            else Undefined
        end
    end.
Proof.
  unfold tryAccept, dynamic_cast_visitor.
  destruct (v_entry v S) as [e|]; [|reflexivity].
  unfold static_cast_this, bind, typeid_this, ret, fail.
  destruct (st_objs σ !! this) as [o|]; [|reflexivity].
  destruct (is_a P (o_dyn o) (q_class S)); reflexivity.
Qed.

Lemma tryAcceptConst_unfold S v this σ :
  tryAcceptConst P S v this σ =
    match v_entry v (add_const S) with
    | None => Ok (false, σ)
    | Some e =>
        match st_objs σ !! this with
        | None => Undefined
        | Some o =>
            if is_a P (o_dyn o) (q_class S)
            then bind (call_visit e (add_const S) this) (fun _ => ret true) σ
            else Undefined
        end
    end.
Proof.
  unfold tryAcceptConst, dynamic_cast_visitor.
  destruct (v_entry v (add_const S)) as [e|]; [|reflexivity].
  unfold static_cast_this, bind, typeid_this, ret, fail.
  destruct (st_objs σ !! this) as [o|]; [|reflexivity].
  cbn [add_const q_class].
  destruct (is_a P (o_dyn o) (q_class S)); reflexivity.
Qed.

Lemma call_visit_then_true (e : body U) q t σ b σ' :
  bind (call_visit e q t) (fun _ => ret true) σ = Ok (b, σ') →
  b = true ∧ call_visit e q t σ = Ok (tt, σ').
Proof.
  unfold bind. destruct (call_visit e q t σ) as [[[] σ1]| | | |]; try discriminate.
  unfold ret. intros [= <- <-]. split; reflexivity.
Qed.

(** X1. [accept] returns normally only through the entry point: if it
    returns, in a debug or a release build, the object is live and is an
    [S], the visitor has the entry point for [S], the state is the one the
    single call of that entry point on the object left, and the log has
    grown by exactly that call.  In a debug build the object's dynamic type
    is then [S] itself.  The same for the const [accept]. *)
Theorem accept_returns_only_via_visit S v this σ σ' :
  (accept P S v this σ = Ok (tt, σ') →
     ∃ o e, st_objs σ !! this = Some o
       ∧ is_a P (o_dyn o) (q_class S) = true
       ∧ (ndebug P = false → o_dyn o = q_class S)
       ∧ v_entry v S = Some e
       ∧ call_visit e S this σ = Ok (tt, σ')
       ∧ st_calls σ' = st_calls σ ++ [CVisit S this])
  ∧ (accept_const P S v this σ = Ok (tt, σ') →
     ∃ o e, st_objs σ !! this = Some o
       ∧ is_a P (o_dyn o) (q_class S) = true
       ∧ (ndebug P = false → o_dyn o = q_class S)
       ∧ v_entry v (add_const S) = Some e
       ∧ call_visit e (add_const S) this σ = Ok (tt, σ')
       ∧ st_calls σ' = st_calls σ ++ [CVisit (add_const S) this]).
Proof.
  destruct (st_objs σ !! this) as [o|] eqn:Hobj.
  2:{ destruct (accept_dangling S v this σ Hobj) as [-> ->].
      split; discriminate. }
  rewrite (accept_unfold P S v this σ o Hobj).
  rewrite (accept_const_unfold P S v this σ o Hobj).
  split.
  - destruct (ndebug P) eqn:Hnd; cbn [negb andb];
      [|destruct (bool_decide_reflect (o_dyn o = q_class S)) as [Heq|Hne];
        cbn [negb]; [|discriminate]];
      (destruct (v_entry v S) as [e|]; [|discriminate]);
      (destruct (is_a P (o_dyn o) (q_class S)) eqn:Hisa; [|discriminate]);
      intros Hcall; exists o, e;
      repeat split; try assumption; try discriminate;
      try (intros _; assumption);
      exact (call_visit_log _ _ _ _ _ Hcall).
  - destruct (ndebug P) eqn:Hnd; cbn [negb andb];
      [|destruct (bool_decide_reflect (o_dyn o = q_class S)) as [Heq|Hne];
        cbn [negb]; [|discriminate]];
      (destruct (v_entry v (add_const S)) as [e|]; [|discriminate]);
      (destruct (is_a P (o_dyn o) (q_class S)) eqn:Hisa; [|discriminate]);
      intros Hcall; exists o, e;
      repeat split; try assumption; try discriminate;
      try (intros _; assumption);
      exact (call_visit_log _ _ _ _ _ Hcall).
Qed.

(** X2. With [NDEBUG] a mismatch is not caught: on an object of a class
    derived from [S] whose dynamic type is not [S], [accept] is the call of
    the entry point for [S] on that object, seen as its base; on an object
    that is no [S] at all the cast, and with it the call, is undefined.
    The same for the const [accept]. *)
Theorem accept_release_mismatch S v this σ o :
  ndebug P = true →
  st_objs σ !! this = Some o →
  o_dyn o ≠ q_class S →
  (∀ e, v_entry v S = Some e →
     accept P S v this σ
     = if is_a P (o_dyn o) (q_class S) then call_visit e S this σ else Undefined)
  ∧ (∀ e, v_entry v (add_const S) = Some e →
     accept_const P S v this σ
     = if is_a P (o_dyn o) (q_class S) then call_visit e (add_const S) this σ
       else Undefined)
  ∧ (is_a P (o_dyn o) (q_class S) = true ↔ q_class S ∈ bases_of P (o_dyn o)).
Proof.
  intros Hnd Hobj Hne. split; [|split].
  - intros e He. rewrite (accept_unfold P S v this σ o Hobj), Hnd, He. reflexivity.
  - intros e He. rewrite (accept_const_unfold P S v this σ o Hobj), Hnd, He.
    reflexivity.
  - unfold is_a. rewrite bool_decide_eq_false_2 by exact Hne.
    cbn [orb]. apply bool_decide_eq_true.
Qed.

(** X3. The boolean a probe returns tells what happened: [true] exactly
    when the visitor has the entry point, and then the log has grown by the
    one call on the probed object; [false] means the whole state is as it
    was.  A probe never ends in a failed assertion. *)
Theorem tryAccept_result_tells_calls S v this σ :
  (∀ b σ', tryAccept P S v this σ = Ok (b, σ') →
     (b = true ↔ is_Some (v_entry v S))
     ∧ st_calls σ' = st_calls σ ++ (if b then [CVisit S this] else [])
     ∧ (b = false → σ' = σ))
  ∧ (∀ b σ', tryAcceptConst P S v this σ = Ok (b, σ') →
     (b = true ↔ is_Some (v_entry v (add_const S)))
     ∧ st_calls σ' = st_calls σ ++ (if b then [CVisit (add_const S) this] else [])
     ∧ (b = false → σ' = σ))
  ∧ tryAccept P S v this σ ≠ Abort
  ∧ tryAcceptConst P S v this σ ≠ Abort.
Proof.
  rewrite tryAccept_unfold, tryAcceptConst_unfold.
  split; [|split; [|split]].
  - intros b σ'. destruct (v_entry v S) as [e|].
    + destruct (st_objs σ !! this) as [o|]; [|discriminate].
      destruct (is_a P (o_dyn o) (q_class S)); [|discriminate].
      intros Hb. apply call_visit_then_true in Hb as [-> Hcall].
      split; [split; eauto|]. split; [|discriminate].
      exact (call_visit_log _ _ _ _ _ Hcall).
    + intros [= <- <-]. split; [split; [discriminate|intros [? [=]]]|].
      split; [rewrite app_nil_r|]; reflexivity.
  - intros b σ'. destruct (v_entry v (add_const S)) as [e|].
    + destruct (st_objs σ !! this) as [o|]; [|discriminate].
      destruct (is_a P (o_dyn o) (q_class S)); [|discriminate].
      intros Hb. apply call_visit_then_true in Hb as [-> Hcall].
      split; [split; eauto|]. split; [|discriminate].
      exact (call_visit_log _ _ _ _ _ Hcall).
    + intros [= <- <-]. split; [split; [discriminate|intros [? [=]]]|].
      split; [rewrite app_nil_r|]; reflexivity.
  - destruct (v_entry v S) as [e|]; [|discriminate].
    destruct (st_objs σ !! this) as [o|]; [|discriminate].
    destruct (is_a P (o_dyn o) (q_class S)); [|discriminate].
    unfold bind. pose proof (call_visit_not_abort e S this σ) as Hna.
    destruct (call_visit e S this σ) as [[[] σ1]| | | |];
      unfold ret; try discriminate; contradiction Hna; reflexivity.
  - destruct (v_entry v (add_const S)) as [e|]; [|discriminate].
    destruct (st_objs σ !! this) as [o|]; [|discriminate].
    destruct (is_a P (o_dyn o) (q_class S)); [|discriminate].
    unfold bind. pose proof (call_visit_not_abort e (add_const S) this σ) as Hna.
    destruct (call_visit e (add_const S) this σ) as [[[] σ1]| | | |];
      unfold ret; try discriminate; contradiction Hna; reflexivity.
Qed.


(** X5. Where both apply, the closed and the acyclic dispatch do the same:
    on a live object whose dynamic type is [S], or in a release build on
    any live object, with a visitor that has the entry point, [tryAccept]
    is [accept] followed by [return true], and [tryAcceptConst] is the
    const [accept] followed by [return true]. *)
Theorem tryAccept_agrees_with_accept S v this σ o :
  st_objs σ !! this = Some o →
  ndebug P = true ∨ o_dyn o = q_class S →
  (is_Some (v_entry v S) →
     tryAccept P S v this σ = bind (accept P S v this) (fun _ => ret true) σ)
  ∧ (is_Some (v_entry v (add_const S)) →
     tryAcceptConst P S v this σ
     = bind (accept_const P S v this) (fun _ => ret true) σ).
Proof.
  intros Hobj Hpass.
  assert (negb (ndebug P) && negb (bool_decide (o_dyn o = q_class S)) = false)
    as Hguard.
  { destruct Hpass as [->|Heq]; [reflexivity|].
    rewrite bool_decide_eq_true_2 by exact Heq. apply andb_false_r. }
  split; intros [e He].
  - rewrite tryAccept_unfold, He, Hobj. unfold bind at 2.
    rewrite (accept_unfold P S v this σ o Hobj), Hguard, He.
    destruct (is_a P (o_dyn o) (q_class S)); reflexivity.
  - rewrite tryAcceptConst_unfold, He, Hobj. unfold bind at 2.
    rewrite (accept_const_unfold P S v this σ o Hobj), Hguard, He.
    destruct (is_a P (o_dyn o) (q_class S)); reflexivity.
Qed.

(** X6. A functor-backed visitor runs only for the types of its pack, the
    [const] included: a probe with [makeImpl] over [Ts] returns [true]
    exactly when [S] (for the const probe [const S]) is one of [Ts], and
    [accept] returns only when it is.  So a visitor built over
    [ConstVisitor] is never run through the mutable [accept] or [tryAccept]
    of a type that is not [const]. *)
Theorem Impl_runs_only_for_its_pack (Ts : list qtype)
    (f : qtype → body (value := value) U) S this σ :
  (∀ b σ', tryAccept P S (makeImpl Ts f) this σ = Ok (b, σ') →
     (b = true ↔ S ∈ Ts))
  ∧ (∀ b σ', tryAcceptConst P S (makeImpl Ts f) this σ = Ok (b, σ') →
     (b = true ↔ add_const S ∈ Ts))
  ∧ (∀ r, accept P S (makeImpl Ts f) this σ = Ok r → S ∈ Ts)
  ∧ (∀ r, accept_const P S (makeImpl Ts f) this σ = Ok r → add_const S ∈ Ts)
  ∧ (q_const S = false →
     (∀ r, accept P S (makeImpl (ConstVisitor Ts) f) this σ ≠ Ok r)
     ∧ tryAccept P S (makeImpl (ConstVisitor Ts) f) this σ = Ok (false, σ)).
Proof.
  assert (∀ Ts' q, v_entry (makeImpl Ts' f) q
                   = if decide (q ∈ Ts') then Some (f q) else None) as Hentry
    by reflexivity.
  assert (∀ Ts' r, accept P S (makeImpl Ts' f) this σ = Ok r → S ∈ Ts') as Hacc.
  { intros Ts' r. destruct (st_objs σ !! this) as [o|] eqn:Hobj.
    - rewrite (accept_unfold P S _ this σ o Hobj), Hentry.
      destruct (negb (ndebug P) && negb (bool_decide (o_dyn o = q_class S)));
        [discriminate|].
      destruct (decide (S ∈ Ts')); [auto | discriminate].
    - destruct (accept_dangling S (makeImpl Ts' f) this σ Hobj) as [-> _].
      discriminate. }
  split; [|split; [|split; [|split]]].
  - intros b σ'. rewrite tryAccept_unfold, Hentry.
    destruct (decide (S ∈ Ts)) as [Hin|Hnin].
    + destruct (st_objs σ !! this) as [o|]; [|discriminate].
      destruct (is_a P (o_dyn o) (q_class S)); [|discriminate].
      intros Hb. apply call_visit_then_true in Hb as [-> _]. tauto.
    + intros [= <- <-]. split; [discriminate | contradiction].
  - intros b σ'. rewrite tryAcceptConst_unfold, Hentry.
    destruct (decide (add_const S ∈ Ts)) as [Hin|Hnin].
    + destruct (st_objs σ !! this) as [o|]; [|discriminate].
      destruct (is_a P (o_dyn o) (q_class S)); [|discriminate].
      intros Hb. apply call_visit_then_true in Hb as [-> _]. tauto.
    + intros [= <- <-]. split; [discriminate | contradiction].
  - apply Hacc.
  - intros r. destruct (st_objs σ !! this) as [o|] eqn:Hobj.
    + rewrite (accept_const_unfold P S _ this σ o Hobj), Hentry.
      destruct (negb (ndebug P) && negb (bool_decide (o_dyn o = q_class S)));
        [discriminate|].
      destruct (decide (add_const S ∈ Ts)); [auto | discriminate].
    + destruct (accept_dangling S (makeImpl Ts f) this σ Hobj) as [_ ->].
      discriminate.
  - intros Hnc.
    assert (S ∉ ConstVisitor Ts) as Hnin.
    { unfold ConstVisitor. intros (T & -> & _)%list_elem_of_fmap. discriminate. }
    split.
    + intros r Hr. exact (Hnin (Hacc _ r Hr)).
    + rewrite tryAccept_unfold, Hentry.
      destruct (decide (S ∈ ConstVisitor Ts)); [contradiction | reflexivity].
Qed.

End MoreDispatch.

(** * Further properties of cloning and printing *)

Section MoreOperations.

Context {value OutputStream : Type} (P : program (value := value) OutputStream).
Implicit Types (S : qtype) (Ts : list qtype) (client : addr) (os : OutputStream).
Implicit Types (objs : gmap addr (object value)) (o : object value).

(** Both [clone] overloads on any client, case by case. *)
Lemma clone_acyclic_cases Ts client objs :
  clone_acyclic P Ts client objs =
    match objs !! client with
    | None => Undefined
    | Some o =>
        match acyclic_visitable_of P (o_dyn o) with
        | None => Rejected
        | Some q =>
            if decide (add_const q ∈ ConstVisitor Ts) then
              if is_a P (o_dyn o) (q_class q) then
                let p := fresh (dom objs) in
                Ok (Some p,
                    <[p := Obj (q_class q) (copy_ctor P (q_class q) (o_val o))]> objs)
              else Undefined
            else Ok (None, objs)
        end
    end.
Proof.
  destruct (objs !! client) as [o|] eqn:Hobj.
  - destruct (acyclic_visitable_of P (o_dyn o)) as [q|] eqn:Hcap.
    + exact (clone_acyclic_unfold P Ts client objs o q Hobj Hcap).
    + unfold clone_acyclic, run, virtual_tryAcceptConst, bind, typeid_this.
      cbn [st_objs]. rewrite Hobj, Hcap. reflexivity.
  - unfold clone_acyclic, run, virtual_tryAcceptConst, bind, typeid_this.
    cbn [st_objs]. rewrite Hobj. reflexivity.
Qed.

Lemma clone_cases Ts client objs :
  clone P Ts client objs =
    match objs !! client with
    | None => Undefined
    | Some o =>
        match visitable_of P (o_dyn o) with
        | None => Rejected
        | Some q =>
            if negb (ndebug P) && negb (bool_decide (o_dyn o = q_class q)) then Abort
            else if decide (add_const q ∈ ConstVisitor Ts) then
              if is_a P (o_dyn o) (q_class q) then
                let p := fresh (dom objs) in
                Ok (Some p,
                    <[p := Obj (q_class q) (copy_ctor P (q_class q) (o_val o))]> objs)
              else Undefined
            else Rejected
        end
    end.
Proof.
  destruct (objs !! client) as [o|] eqn:Hobj.
  - destruct (visitable_of P (o_dyn o)) as [q|] eqn:Hcap.
    + exact (clone_unfold P Ts client objs o q Hobj Hcap).
    + unfold clone, run, virtual_accept_const, bind, typeid_this.
      cbn [st_objs]. rewrite Hobj, Hcap. reflexivity.
  - unfold clone, run, virtual_accept_const, bind, typeid_this.
    cbn [st_objs]. rewrite Hobj. reflexivity.
Qed.

(** What a [clone] that returns has done to the objects. *)
Lemma clone_returns_inv Ts client objs r objs' :
  clone P Ts client objs = Ok (r, objs') ∨ clone_acyclic P Ts client objs = Ok (r, objs') →
  (r = None ∧ objs' = objs)
  ∨ ∃ x, r = Some (fresh (dom objs)) ∧ objs' = <[fresh (dom objs) := x]> objs.
Proof.
  rewrite clone_cases, clone_acyclic_cases.
  destruct (objs !! client) as [o|]; [|intros [|]; discriminate].
  intros [Hr|Hr].
  - destruct (visitable_of P (o_dyn o)) as [q|]; [|discriminate].
    destruct (negb (ndebug P) && negb (bool_decide (o_dyn o = q_class q)));
      [discriminate|].
    destruct (decide (add_const q ∈ ConstVisitor Ts)); [|discriminate].
    destruct (is_a P (o_dyn o) (q_class q)); [|discriminate].
    injection Hr as <- <-. right. eauto.
  - destruct (acyclic_visitable_of P (o_dyn o)) as [q|]; [|discriminate].
    destruct (decide (add_const q ∈ ConstVisitor Ts));
      [destruct (is_a P (o_dyn o) (q_class q)); [|discriminate]|];
      injection Hr as <- <-; [right|left]; eauto.
Qed.

(** X7. Whatever the client, a [clone] that returns, in either overload,
    has deleted and changed nothing: every object that was live is still
    there as it was.  If the pointer returned is null the objects are
    exactly as before; otherwise it is an address that was not live, and
    the objects are the old ones and the one new object at that address. *)
Theorem clone_frame Ts client objs r objs' :
  clone P Ts client objs = Ok (r, objs') ∨ clone_acyclic P Ts client objs = Ok (r, objs') →
  (∀ a x, objs !! a = Some x → objs' !! a = Some x)
  ∧ match r with
    | None => objs' = objs
    | Some p =>
        objs !! p = None ∧ is_Some (objs' !! p)
        ∧ dom objs' = {[p]} ∪ dom objs
        ∧ ∀ a, a ≠ p → objs' !! a = objs !! a
    end.
Proof.
  intros Hr. destruct (clone_returns_inv Ts client objs r objs' Hr)
    as [[-> ->]|(x & -> & ->)].
  - split; [auto | reflexivity].
  - pose proof (fresh_not_live objs) as Hfresh. split.
    + intros a y Ha. rewrite lookup_insert_ne; [exact Ha | congruence].
    + split; [exact Hfresh|]. split; [rewrite lookup_insert_eq; eauto|].
      split; [apply dom_insert_L|].
      intros a Hne. apply lookup_insert_ne. congruence.
Qed.

(** X8. The clone is always an object of the class [S] of the client's
    visitable capability, made by [S]'s copy constructor from the client's
    value, whatever the client's dynamic type is: a client of a derived
    class that reuses its base's capability is copied as its base. *)
Theorem clone_has_capability_type Ts client objs o S p objs' :
  objs !! client = Some o →
  (visitable_of P (o_dyn o) = Some S ∧ clone P Ts client objs = Ok (Some p, objs'))
  ∨ (acyclic_visitable_of P (o_dyn o) = Some S
     ∧ clone_acyclic P Ts client objs = Ok (Some p, objs')) →
  objs' !! p = Some (Obj (q_class S) (copy_ctor P (q_class S) (o_val o)))
  ∧ is_a P (o_dyn o) (q_class S) = true
  ∧ q_class S ∈ (q_class <$> Ts).
Proof.
  intros Hobj [[Hcap Hr]|[Hcap Hr]].
  - rewrite (clone_unfold P Ts client objs o S Hobj Hcap) in Hr.
    destruct (negb (ndebug P) && negb (bool_decide (o_dyn o = q_class S)));
      [discriminate|].
    destruct (decide (add_const S ∈ ConstVisitor Ts)) as [Hin|]; [|discriminate].
    destruct (is_a P (o_dyn o) (q_class S)); [|discriminate].
    injection Hr as <- <-. split; [apply lookup_insert_eq|].
    split; [reflexivity|]. apply ConstVisitor_handles, Hin.
  - rewrite (clone_acyclic_unfold P Ts client objs o S Hobj Hcap) in Hr.
    destruct (decide (add_const S ∈ ConstVisitor Ts)) as [Hin|]; [|discriminate].
    destruct (is_a P (o_dyn o) (q_class S)); [|discriminate].
    injection Hr as <- <-. split; [apply lookup_insert_eq|].
    split; [reflexivity|]. apply ConstVisitor_handles, Hin.
Qed.

(** X9. The closed [clone] never returns a null pointer: it returns an
    object or does not return.  The acyclic [clone], when it returns,
    returns null exactly when [V] does not handle the type [S] of the
    client's capability. *)
Theorem clone_null_result Ts client objs :
  (∀ r objs', clone P Ts client objs = Ok (r, objs') → is_Some r)
  ∧ (∀ o S r objs',
       objs !! client = Some o →
       acyclic_visitable_of P (o_dyn o) = Some S →
       clone_acyclic P Ts client objs = Ok (r, objs') →
       (r = None ↔ q_class S ∉ (q_class <$> Ts))).
Proof.
  split.
  - intros r objs'. rewrite clone_cases.
    destruct (objs !! client) as [o|]; [|discriminate].
    destruct (visitable_of P (o_dyn o)) as [q|]; [|discriminate].
    destruct (negb (ndebug P) && negb (bool_decide (o_dyn o = q_class q)));
      [discriminate|].
    destruct (decide (add_const q ∈ ConstVisitor Ts)); [|discriminate].
    destruct (is_a P (o_dyn o) (q_class q)); [|discriminate].
    intros [= <- <-]. eauto.
  - intros o S r objs' Hobj Hcap.
    rewrite (clone_acyclic_unfold P Ts client objs o S Hobj Hcap).
    rewrite <- ConstVisitor_handles.
    destruct (decide (add_const S ∈ ConstVisitor Ts)) as [Hin|Hnin].
    + destruct (is_a P (o_dyn o) (q_class S)); [|discriminate].
      intros [= <- <-]. split; [discriminate | contradiction].
    + intros [= <- <-]. split; [auto | reflexivity].
Qed.

(** X10. In a debug build the closed [clone] and the closed [print] stop at
    the assertion for a client whose dynamic type is not the type of its
    capability, before anything is allocated or written.  The acyclic
    overloads have no assertion: they never end in a failed assertion, and
    neither they nor the closed overloads ever end in an exception, since
    the functor is only handed live objects. *)
Theorem closed_operations_abort_on_mismatch Ts os client objs :
  (∀ o S, ndebug P = false → objs !! client = Some o →
     visitable_of P (o_dyn o) = Some S → o_dyn o ≠ q_class S →
     clone P Ts client objs = Abort ∧ print P Ts os client objs = Abort)
  ∧ clone_acyclic P Ts client objs ≠ Abort
  ∧ print_acyclic P Ts os client objs ≠ Abort
  ∧ clone_acyclic P Ts client objs ≠ Raised
  ∧ print_acyclic P Ts os client objs ≠ Raised
  ∧ clone P Ts client objs ≠ Raised
  ∧ print P Ts os client objs ≠ Raised.
Proof.
  rewrite clone_cases, clone_acyclic_cases, print_unfold, print_acyclic_unfold.
  split.
  - intros o S Hnd Hobj Hcap Hne. rewrite Hobj, Hcap, Hnd.
    rewrite bool_decide_eq_false_2 by exact Hne. split; reflexivity.
  - destruct (objs !! client) as [o|]; [|repeat split; discriminate].
    destruct (acyclic_visitable_of P (o_dyn o)) as [qa|],
             (visitable_of P (o_dyn o)) as [qc|];
      repeat split; repeat case_match; discriminate.
Qed.

(** X11. The [Cloner] owns at most one object.  Called while its slot
    already owns one, it makes the new copy first and then deletes the old
    object: afterwards the old address is gone, the slot owns the new
    object, every other object is as it was, and the number of live objects
    has not changed.  Called with an empty slot it adds one object. *)
Theorem Cloner_reuse_releases_previous (q : qtype) (t : addr) objs src :
  objs !! t = Some src →
  let copied := Obj (q_class q) (copy_ctor P (q_class q) (o_val src)) in
  ∃ p, objs !! p = None
    ∧ Cloner_call P q t objs (MkCloner None)
      = Some (<[p := copied]> objs, MkCloner (Some p))
    ∧ size (<[p := copied]> objs) = Datatypes.S (size objs)
    ∧ ∀ old, is_Some (objs !! old) →
        ∃ objs', Cloner_call P q t objs (MkCloner (Some old))
                 = Some (objs', MkCloner (Some p))
          ∧ p ≠ old
          ∧ objs' !! old = None
          ∧ objs' !! p = Some copied
          ∧ (∀ a, a ≠ old → a ≠ p → objs' !! a = objs !! a)
          ∧ size objs' = size objs.
Proof.
  intros Hsrc copied. pose proof (fresh_not_live objs) as Hfresh.
  exists (fresh (dom objs)). split; [exact Hfresh|].
  split; [unfold Cloner_call; rewrite Hsrc; reflexivity|].
  split; [apply map_size_insert_None, Hfresh|].
  intros old [x Hold].
  assert (fresh (dom objs) ≠ old) as Hne by congruence.
  exists (delete old (<[fresh (dom objs) := copied]> objs)).
  split; [unfold Cloner_call; rewrite Hsrc; reflexivity|].
  split; [exact Hne|]. split; [apply lookup_delete_eq|].
  split; [rewrite lookup_delete_ne by congruence; apply lookup_insert_eq|].
  split.
  - intros a Ha1 Ha2. rewrite lookup_delete_ne by congruence.
    apply lookup_insert_ne. congruence.
  - rewrite map_size_delete_Some.
    + rewrite map_size_insert_None by exact Hfresh. reflexivity.
    + rewrite lookup_insert_ne by exact Hne. eauto.
Qed.

(** X12. A clone can be cloned again.  For a client whose dynamic type is
    the type [S] of its capability, with [S] handled by [V], cloning the
    clone returns a third object at a third address; the client and the
    first clone are still there unchanged, and each copy is the copy
    constructor's copy of the one before it. *)
Theorem clone_of_clone Ts client objs o S :
  objs !! client = Some o →
  o_dyn o = q_class S →
  add_const S ∈ ConstVisitor Ts →
  let o1 := Obj (o_dyn o) (copy_ctor P (o_dyn o) (o_val o)) in
  let o2 := Obj (o_dyn o) (copy_ctor P (o_dyn o) (o_val o1)) in
  ∃ p1 p2,
    p1 ≠ client ∧ p2 ≠ client ∧ p1 ≠ p2
    ∧ objs !! p1 = None ∧ objs !! p2 = None
    ∧ (visitable_of P (o_dyn o) = Some S →
       clone P Ts client objs = Ok (Some p1, <[p1 := o1]> objs)
       ∧ clone P Ts p1 (<[p1 := o1]> objs)
         = Ok (Some p2, <[p2 := o2]> (<[p1 := o1]> objs)))
    ∧ (acyclic_visitable_of P (o_dyn o) = Some S →
       clone_acyclic P Ts client objs = Ok (Some p1, <[p1 := o1]> objs)
       ∧ clone_acyclic P Ts p1 (<[p1 := o1]> objs)
         = Ok (Some p2, <[p2 := o2]> (<[p1 := o1]> objs)))
    ∧ (<[p2 := o2]> (<[p1 := o1]> objs)) !! client = Some o
    ∧ (<[p2 := o2]> (<[p1 := o1]> objs)) !! p1 = Some o1
    ∧ (<[p2 := o2]> (<[p1 := o1]> objs)) !! p2 = Some o2.
Proof.
  intros Hobj Hdyn Hin o1 o2.
  set (p1 := fresh (dom objs)).
  set (objs1 := <[p1 := o1]> objs).
  set (p2 := fresh (dom objs1)).
  assert (objs !! p1 = None) as Hf1 by apply fresh_not_live.
  assert (objs1 !! p2 = None) as Hf2 by apply fresh_not_live.
  assert (p1 ≠ client) as Hn1 by congruence.
  assert (objs1 !! p1 = Some o1) as H1 by apply lookup_insert_eq.
  assert (objs1 !! client = Some o) as Hc1
    by (unfold objs1; rewrite lookup_insert_ne by exact Hn1; exact Hobj).
  assert (p2 ≠ client) as Hn2 by congruence.
  assert (p1 ≠ p2) as Hn12 by congruence.
  assert (objs !! p2 = None) as Hf2'.
  { unfold objs1 in Hf2. rewrite lookup_insert_ne in Hf2 by exact Hn12. exact Hf2. }
  assert (negb (ndebug P) && negb (bool_decide (o_dyn o = q_class S)) = false)
    as Hguard.
  { rewrite bool_decide_eq_true_2 by exact Hdyn. apply andb_false_r. }
  exists p1, p2. fold objs1.
  split; [exact Hn1|]. split; [exact Hn2|]. split; [exact Hn12|].
  split; [exact Hf1|]. split; [exact Hf2'|].
  split; [|split; [|split; [|split]]].
  - intros Hcap. split.
    + rewrite (clone_unfold P Ts client objs o S Hobj Hcap), Hguard.
      destruct (decide (add_const S ∈ ConstVisitor Ts)); [|contradiction].
      rewrite <- Hdyn, is_a_refl. reflexivity.
    + rewrite (clone_unfold P Ts p1 objs1 o1 S H1 Hcap).
      unfold o1 at 1 2 3. cbn [o_dyn o_val]. rewrite Hguard.
      destruct (decide (add_const S ∈ ConstVisitor Ts)); [|contradiction].
      rewrite <- Hdyn, is_a_refl. reflexivity.
  - intros Hcap. split.
    + rewrite (clone_acyclic_unfold P Ts client objs o S Hobj Hcap).
      destruct (decide (add_const S ∈ ConstVisitor Ts)); [|contradiction].
      rewrite <- Hdyn, is_a_refl. reflexivity.
    + rewrite (clone_acyclic_unfold P Ts p1 objs1 o1 S H1 Hcap).
      unfold o1 at 1 2. cbn [o_dyn o_val].
      destruct (decide (add_const S ∈ ConstVisitor Ts)); [|contradiction].
      rewrite <- Hdyn, is_a_refl. reflexivity.
  - rewrite lookup_insert_ne by exact Hn2. exact Hc1.
  - rewrite lookup_insert_ne by congruence. exact H1.
  - apply lookup_insert_eq.
Qed.

Lemma ConstVisitor_classes Ts :
  ConstVisitor Ts = QT true <$> (q_class <$> Ts).
Proof. unfold ConstVisitor. rewrite <- list_fmap_compose. reflexivity. Qed.

(** X13. The acyclic [clone] and [print] look only at the classes of
    [V]'s types, not at their [const]: two packs with the same classes in
    the same order give the same result on every input.  In particular
    [V::ConstVisitor] can be passed for [V], and forming [ConstVisitor]
    twice changes nothing. *)
Theorem acyclic_operations_ignore_const Ts Ts' :
  q_class <$> Ts = q_class <$> Ts' →
  (∀ client objs, clone_acyclic P Ts client objs = clone_acyclic P Ts' client objs)
  ∧ (∀ os client objs,
       print_acyclic P Ts os client objs = print_acyclic P Ts' os client objs)
  ∧ (∀ client objs,
       clone_acyclic P (ConstVisitor Ts) client objs = clone_acyclic P Ts client objs)
  ∧ (∀ os client objs,
       print_acyclic P (ConstVisitor Ts) os client objs
       = print_acyclic P Ts os client objs)
  ∧ ConstVisitor (ConstVisitor Ts) = ConstVisitor Ts.
Proof.
  intros Hcls.
  assert (ConstVisitor Ts = ConstVisitor Ts') as Heq
    by (rewrite !ConstVisitor_classes, Hcls; reflexivity).
  assert (ConstVisitor (ConstVisitor Ts) = ConstVisitor Ts) as Hidem.
  { rewrite (ConstVisitor_classes (ConstVisitor Ts)), (ConstVisitor_classes Ts).
    rewrite <- !list_fmap_compose. reflexivity. }
  split; [|split; [|split; [|split]]].
  - intros client objs. unfold clone_acyclic. rewrite Heq. reflexivity.
  - intros os client objs. unfold print_acyclic. rewrite Heq. reflexivity.
  - intros client objs. unfold clone_acyclic. rewrite Hidem. reflexivity.
  - intros os client objs. unfold print_acyclic. rewrite Hidem. reflexivity.
  - exact Hidem.
Qed.

(** X14. What [print] inserts is the client as an object of the class [S]
    of its capability: the stream receives [os << t] for [t] of type
    [const S &], whatever the client's dynamic type.  The closed [print]
    never returns without that insertion; the acyclic one returns with the
    insertion when [V] handles [S] and with the stream as given when it
    does not. *)
Theorem print_inserts_as_capability_type Ts os client objs o S os' objs' :
  objs !! client = Some o →
  (visitable_of P (o_dyn o) = Some S →
     print P Ts os client objs = Ok (os', objs') →
     os' = stream_insert P os (q_class S) (o_val o)
     ∧ objs' = objs ∧ q_class S ∈ (q_class <$> Ts))
  ∧ (acyclic_visitable_of P (o_dyn o) = Some S →
     print_acyclic P Ts os client objs = Ok (os', objs') →
     objs' = objs
     ∧ (q_class S ∈ (q_class <$> Ts) →
        os' = stream_insert P os (q_class S) (o_val o))
     ∧ (q_class S ∉ (q_class <$> Ts) → os' = os)).
Proof.
  intros Hobj. rewrite print_unfold, print_acyclic_unfold, Hobj.
  rewrite <- ConstVisitor_handles. split; intros ->.
  - destruct (negb (ndebug P) && negb (bool_decide (o_dyn o = q_class S)));
      [discriminate|].
    destruct (decide (add_const S ∈ ConstVisitor Ts)) as [Hin|]; [|discriminate].
    destruct (is_a P (o_dyn o) (q_class S)); [|discriminate].
    intros [= <- <-]. auto.
  - destruct (decide (add_const S ∈ ConstVisitor Ts)) as [Hin|Hnin].
    + destruct (is_a P (o_dyn o) (q_class S)); [|discriminate].
      intros [= <- <-]. split; [reflexivity|]. split; [auto | contradiction].
    + intros [= <- <-]. split; [reflexivity|]. split; [contradiction | auto].
Qed.

End MoreOperations.

(** * Further properties of the [Impl] constructors *)

Section MoreImplCtor.

Import ImplCtor.

Lemma not_candidate t k a c :
  bool_decide (c ∈ candidates t k a) = false → c ∈ candidates t k a → False.
Proof. intros Hb Hin. apply bool_decide_eq_false in Hb. exact (Hb Hin). Qed.

(** X15. For every kind of [Impl] argument, in both templates and both
    forms of initialisation, overload resolution is unambiguous: it selects
    a constructor that is no template and whose parameter is exactly the
    argument's type and category, and that constructor beats every other
    candidate.  The forwarding constructor binds every argument, and it is
    a better match than each of the other candidates, so it loses only to
    the one constructor declared for the argument's own category. *)
Theorem forwarding_loses_only_to_exact_match (t : impl_template) (k : init) (a : arg) :
  ∃ c, resolve t k a = Some c
    ∧ is_template c = false
    ∧ param_of c a = param_of Forwarding a
    ∧ binds (param_of Forwarding a) a = true
    ∧ (∀ c', c' ∈ candidates t k a → c' ≠ c →
         better a c c' = true ∧ better a c' c = false)
    ∧ (∀ c', c' ∈ candidates t k a → c' ≠ c → c' ≠ Forwarding →
         better a Forwarding c' = true ∧ better a c' Forwarding = false).
Proof.
  destruct a as [[] []], t, k; eexists;
    (split; [reflexivity|]); (split; [reflexivity|]); (split; [reflexivity|]);
    (split; [reflexivity|]);
    (split; intros c' Hin Hne; [|intros Hnf]; destruct c';
     first [ contradiction
           | split; reflexivity
           | exfalso; revert Hin; apply not_candidate; reflexivity ]).
Qed.

End MoreImplCtor.

(** * Cloning and printing together *)

Section CloneThenPrint.

Context {value OutputStream : Type} (P : program (value := value) OutputStream).
Implicit Types (S : qtype) (Ts : list qtype) (client : addr) (os : OutputStream).
Implicit Types (objs : gmap addr (object value)) (o : object value).

(** X16. The clone prints like the original.  For a client whose dynamic
    type is the type [S] of its capability, with [S] handled by [V]:
    after [clone], printing the clone inserts the copy constructor's copy
    of the client's value as an [S], printing the client inserts what it
    would have inserted before the clone was made, and when the copy
    constructor copies the value the two streams are equal.  In both
    overloads. *)
Theorem clone_prints_like_original Ts os client objs o S :
  objs !! client = Some o →
  o_dyn o = q_class S →
  add_const S ∈ ConstVisitor Ts →
  ∃ p objs',
    objs' !! client = Some o
    ∧ (acyclic_visitable_of P (o_dyn o) = Some S →
       clone_acyclic P Ts client objs = Ok (Some p, objs')
       ∧ print_acyclic P Ts os p objs'
         = Ok (stream_insert P os (q_class S) (copy_ctor P (q_class S) (o_val o)),
               objs')
       ∧ print_acyclic P Ts os client objs'
         = Ok (stream_insert P os (q_class S) (o_val o), objs')
       ∧ print_acyclic P Ts os client objs
         = Ok (stream_insert P os (q_class S) (o_val o), objs)
       ∧ (copy_ctor P (q_class S) (o_val o) = o_val o →
          print_acyclic P Ts os p objs' = print_acyclic P Ts os client objs'))
    ∧ (visitable_of P (o_dyn o) = Some S →
       clone P Ts client objs = Ok (Some p, objs')
       ∧ print P Ts os p objs'
         = Ok (stream_insert P os (q_class S) (copy_ctor P (q_class S) (o_val o)),
               objs')
       ∧ print P Ts os client objs'
         = Ok (stream_insert P os (q_class S) (o_val o), objs')
       ∧ print P Ts os client objs
         = Ok (stream_insert P os (q_class S) (o_val o), objs)
       ∧ (copy_ctor P (q_class S) (o_val o) = o_val o →
          print P Ts os p objs' = print P Ts os client objs')).
Proof.
  intros Hobj Hdyn Hin.
  set (o1 := Obj (q_class S) (copy_ctor P (q_class S) (o_val o))).
  set (p := fresh (dom objs)).
  assert (objs !! p = None) as Hfresh by apply fresh_not_live.
  assert (p ≠ client) as Hne by congruence.
  assert ((<[p := o1]> objs) !! client = Some o) as Hc
    by (rewrite lookup_insert_ne by exact Hne; exact Hobj).
  assert ((<[p := o1]> objs) !! p = Some o1) as Hp by apply lookup_insert_eq.
  assert (negb (ndebug P) && negb (bool_decide (o_dyn o = q_class S)) = false)
    as Hguard.
  { rewrite bool_decide_eq_true_2 by exact Hdyn. apply andb_false_r. }
  assert (negb (ndebug P) && negb (bool_decide (q_class S = q_class S)) = false)
    as Hguard1.
  { rewrite bool_decide_eq_true_2 by reflexivity. apply andb_false_r. }
  exists p, (<[p := o1]> objs). split; [exact Hc|]. split.
  - intros Hcap.
    assert (acyclic_visitable_of P (o_dyn o1) = Some S) as Hcap1
      by (cbn [o1 o_dyn]; rewrite <- Hdyn; exact Hcap).
    assert (print_acyclic P Ts os p (<[p := o1]> objs)
            = Ok (stream_insert P os (q_class S) (copy_ctor P (q_class S) (o_val o)),
                  <[p := o1]> objs)) as Hpp.
    { rewrite print_acyclic_unfold, Hp, Hcap1.
      destruct (decide (add_const S ∈ ConstVisitor Ts)); [|contradiction].
      cbn [o1 o_dyn o_val]. rewrite is_a_refl. reflexivity. }
    assert (∀ objs0, objs0 !! client = Some o →
              print_acyclic P Ts os client objs0
              = Ok (stream_insert P os (q_class S) (o_val o), objs0)) as Hpc.
    { intros objs0 H0. rewrite print_acyclic_unfold, H0, Hcap.
      destruct (decide (add_const S ∈ ConstVisitor Ts)); [|contradiction].
      rewrite Hdyn, is_a_refl. reflexivity. }
    split.
    { rewrite (clone_acyclic_unfold P Ts client objs o S Hobj Hcap).
      destruct (decide (add_const S ∈ ConstVisitor Ts)); [|contradiction].
      rewrite Hdyn, is_a_refl. reflexivity. }
    split; [exact Hpp|]. split; [exact (Hpc _ Hc)|]. split; [exact (Hpc _ Hobj)|].
    intros Hcopy. rewrite Hpp, (Hpc _ Hc), Hcopy. reflexivity.
  - intros Hcap.
    assert (visitable_of P (o_dyn o1) = Some S) as Hcap1
      by (cbn [o1 o_dyn]; rewrite <- Hdyn; exact Hcap).
    assert (print P Ts os p (<[p := o1]> objs)
            = Ok (stream_insert P os (q_class S) (copy_ctor P (q_class S) (o_val o)),
                  <[p := o1]> objs)) as Hpp.
    { rewrite print_unfold, Hp, Hcap1. cbn [o1 o_dyn o_val]. rewrite Hguard1.
      destruct (decide (add_const S ∈ ConstVisitor Ts)); [|contradiction].
      rewrite is_a_refl. reflexivity. }
    assert (∀ objs0, objs0 !! client = Some o →
              print P Ts os client objs0
              = Ok (stream_insert P os (q_class S) (o_val o), objs0)) as Hpc.
    { intros objs0 H0. rewrite print_unfold, H0, Hcap, Hguard.
      destruct (decide (add_const S ∈ ConstVisitor Ts)); [|contradiction].
      rewrite Hdyn, is_a_refl. reflexivity. }
    split.
    { rewrite (clone_unfold P Ts client objs o S Hobj Hcap), Hguard.
      destruct (decide (add_const S ∈ ConstVisitor Ts)); [|contradiction].
      rewrite Hdyn, is_a_refl. reflexivity. }
    split; [exact Hpp|]. split; [exact (Hpc _ Hc)|]. split; [exact (Hpc _ Hobj)|].
    intros Hcopy. rewrite Hpp, (Hpc _ Hc), Hcopy. reflexivity.
Qed.

End CloneThenPrint.

(** * The further properties on the example program *)

(** X1 on the [Disk] at 3 in a release build: the call that returned went
    through the entry point for [Circle]. *)
Lemma accept_returns_only_via_visit_witness :
  ∃ o e, Shapes.objs0 !! 3 = Some o
    ∧ v_entry Shapes.area_visitor Shapes.Circle = Some e
    ∧ call_visit e Shapes.Circle 3 Shapes.σ0
      = Ok (tt, State Shapes.objs0 [CVisit Shapes.Circle 3] 75%Z).
Proof.
  destruct (accept_returns_only_via_visit (Shapes.shapes true) Shapes.Circle
              Shapes.area_visitor 3 Shapes.σ0
              (State Shapes.objs0 [CVisit Shapes.Circle 3] 75%Z)) as [Hm _].
  destruct Hm as (o & e & Hobj & _ & _ & He & Hcall & _);
    [vm_compute; reflexivity|].
  exists o, e. auto.
Defined.

(** X2 on the [Disk] at 3, which derives from [Circle]. *)
Lemma accept_release_mismatch_witness :
  accept (Shapes.shapes true) Shapes.Circle Shapes.area_visitor 3 Shapes.σ0
  = call_visit (Shapes.area Shapes.Circle) Shapes.Circle 3 Shapes.σ0.
Proof.
  destruct (accept_release_mismatch (Shapes.shapes true) Shapes.Circle
              Shapes.area_visitor 3 Shapes.σ0 (Obj "Disk" 5%Z))
    as (Hm & _ & _); [reflexivity | reflexivity | discriminate |].
  apply (Hm (Shapes.area Shapes.Circle)). reflexivity.
Defined.

(** X3 on the [Circle] at 1. *)
Lemma tryAccept_result_tells_calls_witness :
  is_Some (v_entry Shapes.area_visitor Shapes.Circle)
  ∧ st_calls (State Shapes.objs0 [CVisit Shapes.Circle 1] 12%Z)
    = st_calls Shapes.σ0 ++ [CVisit Shapes.Circle 1].
Proof.
  destruct (tryAccept_result_tells_calls (Shapes.shapes false) Shapes.Circle
              Shapes.area_visitor 1 Shapes.σ0) as (Hm & _).
  destruct (Hm true (State Shapes.objs0 [CVisit Shapes.Circle 1] 12%Z))
    as (Hiff & Hlog & _); [vm_compute; reflexivity|].
  split; [apply Hiff; reflexivity | exact Hlog].
Defined.


(** X5 on the [Circle] at 1 in a debug build. *)
Lemma tryAccept_agrees_with_accept_witness :
  tryAccept (Shapes.shapes false) Shapes.Circle Shapes.area_visitor 1 Shapes.σ0
  = bind (accept (Shapes.shapes false) Shapes.Circle Shapes.area_visitor 1)
      (fun _ => ret true) Shapes.σ0.
Proof.
  destruct (tryAccept_agrees_with_accept (Shapes.shapes false) Shapes.Circle
              Shapes.area_visitor 1 Shapes.σ0 (Obj "Circle" 2%Z)) as [Hm _];
    [reflexivity | right; reflexivity |].
  apply Hm. exists (Shapes.area Shapes.Circle). reflexivity.
Defined.

(** X6 on the const area visitor and the mutable probe of the [Circle]
    at 1. *)
Lemma Impl_runs_only_for_its_pack_witness :
  tryAccept (Shapes.shapes false) Shapes.Circle
    (makeImpl (ConstVisitor Shapes.V) Shapes.area) 1 Shapes.σ0
  = Ok (false, Shapes.σ0).
Proof.
  destruct (Impl_runs_only_for_its_pack (Shapes.shapes false) Shapes.V Shapes.area
              Shapes.Circle 1 Shapes.σ0) as (_ & _ & _ & _ & Hc).
  apply Hc. reflexivity.
Defined.

(** X7 on the acyclic clone of the [Circle] at 1: the [Square] at 2 is
    still there. *)
Lemma clone_frame_witness :
  (<[5 := Obj "Circle" 2%Z]> Shapes.objs0) !! 2 = Some (Obj "Square" 3%Z)
  ∧ Shapes.objs0 !! 5 = None.
Proof.
  destruct (clone_frame (Shapes.shapes false) Shapes.V 1 Shapes.objs0 (Some 5)
              (<[5 := Obj "Circle" 2%Z]> Shapes.objs0)) as [Hkeep (Hnew & _)];
    [right; vm_compute; reflexivity|].
  split; [apply Hkeep; reflexivity | exact Hnew].
Defined.

(** X8 on the acyclic clone of the [Disk] at 3: the clone is a [Circle]. *)
Lemma clone_has_capability_type_witness :
  (<[5 := Obj "Circle" 5%Z]> Shapes.objs0) !! 5 = Some (Obj "Circle" 5%Z).
Proof.
  apply (clone_has_capability_type (Shapes.shapes false) Shapes.V 3 Shapes.objs0
           (Obj "Disk" 5%Z) Shapes.Circle 5 (<[5 := Obj "Circle" 5%Z]> Shapes.objs0));
    [reflexivity|].
  right. split; [reflexivity | vm_compute; reflexivity].
Defined.

(** X9 on the [Triangle] at 4, which [V] does not handle. *)
Lemma clone_null_result_witness :
  @None addr = None ↔ ("Triangle" ∉ q_class <$> Shapes.V).
Proof.
  destruct (clone_null_result (Shapes.shapes false) Shapes.V 4 Shapes.objs0)
    as [_ Hacyclic].
  apply (Hacyclic (Obj "Triangle" 7%Z) Shapes.Triangle None Shapes.objs0);
    [reflexivity | reflexivity | vm_compute; reflexivity].
Defined.

(** X10 on the [Disk] at 3 in a debug build. *)
Lemma closed_operations_abort_on_mismatch_witness :
  clone (Shapes.shapes false) Shapes.V 3 Shapes.objs0 = Abort
  ∧ print (Shapes.shapes false) Shapes.V [] 3 Shapes.objs0 = Abort.
Proof.
  destruct (closed_operations_abort_on_mismatch (Shapes.shapes false) Shapes.V []
              3 Shapes.objs0) as [Hab _].
  apply (Hab (Obj "Disk" 5%Z) Shapes.Circle);
    [reflexivity | reflexivity | reflexivity | discriminate].
Defined.

(** X11 on a [Cloner] that owns the [Square] at 2 and copies the [Circle]
    at 1. *)
Lemma Cloner_reuse_releases_previous_witness :
  ∃ p objs', Cloner_call (Shapes.shapes false) (add_const Shapes.Circle) 1
               Shapes.objs0 (MkCloner (Some 2))
             = Some (objs', MkCloner (Some p))
    ∧ objs' !! 2 = None ∧ size objs' = size Shapes.objs0.
Proof.
  destruct (Cloner_reuse_releases_previous (Shapes.shapes false)
              (add_const Shapes.Circle) 1 Shapes.objs0 (Obj "Circle" 2%Z))
    as (p & _ & _ & _ & Hreuse); [reflexivity|].
  destruct (Hreuse 2) as (objs' & Hcall & _ & Hgone & _ & _ & Hsize);
    [exists (Obj "Square" 3%Z); reflexivity|].
  exists p, objs'. auto.
Defined.

(** X12 on the [Circle] at 1. *)
Lemma clone_of_clone_witness :
  ∃ p1 p2, p1 ≠ p2
    ∧ clone_acyclic (Shapes.shapes false) Shapes.V p1
        (<[p1 := Obj "Circle" 2%Z]> Shapes.objs0)
      = Ok (Some p2, <[p2 := Obj "Circle" 2%Z]> (<[p1 := Obj "Circle" 2%Z]> Shapes.objs0)).
Proof.
  destruct (clone_of_clone (Shapes.shapes false) Shapes.V 1 Shapes.objs0
              (Obj "Circle" 2%Z) Shapes.Circle)
    as (p1 & p2 & _ & _ & Hne & _ & _ & _ & Hacyclic & _);
    [reflexivity | reflexivity | apply (bool_decide_unpack _); vm_compute; exact I |].
  exists p1, p2. split; [exact Hne|]. apply Hacyclic. reflexivity.
Defined.

(** X13 on [V] and [V::ConstVisitor]. *)
Lemma acyclic_operations_ignore_const_witness :
  clone_acyclic (Shapes.shapes false) Shapes.V 1 Shapes.objs0
  = clone_acyclic (Shapes.shapes false) (ConstVisitor Shapes.V) 1 Shapes.objs0.
Proof.
  destruct (acyclic_operations_ignore_const (Shapes.shapes false) Shapes.V
              (ConstVisitor Shapes.V)) as [Hclone _]; [reflexivity|].
  apply Hclone.
Defined.

(** X14 on the [Disk] at 3 in a release build: it is inserted as a
    [Circle]. *)
Lemma print_inserts_as_capability_type_witness :
  [("Circle", 5%Z)] = stream_insert (Shapes.shapes true) [] "Circle" 5%Z.
Proof.
  destruct (print_inserts_as_capability_type (Shapes.shapes true) Shapes.V [] 3
              Shapes.objs0 (Obj "Disk" 5%Z) Shapes.Circle [("Circle", 5%Z)]
              Shapes.objs0) as [Hclosed _]; [reflexivity|].
  destruct Hclosed as (Hos & _); [reflexivity | vm_compute; reflexivity |].
  exact Hos.
Defined.

(** X15 on a non-const lvalue given to [Visitor<T...>::Impl]: the const
    copy constructor is a candidate, and the forwarding constructor beats
    it. *)
Lemma forwarding_loses_only_to_exact_match_witness :
  ImplCtor.better ImplCtor.lvalue ImplCtor.Forwarding ImplCtor.Copy = true.
Proof.
  destruct (forwarding_loses_only_to_exact_match ImplCtor.VisitorImpl
              ImplCtor.DirectInit ImplCtor.lvalue)
    as (c & Hres & _ & _ & _ & _ & Hfw).
  injection Hres as <-.
  apply Hfw; [apply (bool_decide_unpack _); vm_compute; exact I
             | discriminate | discriminate].
Defined.

(** X16 on the [Circle] at 1. *)
Lemma clone_prints_like_original_witness :
  ∃ p objs',
    clone_acyclic (Shapes.shapes false) Shapes.V 1 Shapes.objs0 = Ok (Some p, objs')
    ∧ print_acyclic (Shapes.shapes false) Shapes.V [] p objs'
      = print_acyclic (Shapes.shapes false) Shapes.V [] 1 objs'.
Proof.
  destruct (clone_prints_like_original (Shapes.shapes false) Shapes.V [] 1
              Shapes.objs0 (Obj "Circle" 2%Z) Shapes.Circle)
    as (p & objs' & _ & Hacyclic & _);
    [reflexivity | reflexivity | apply (bool_decide_unpack _); vm_compute; exact I |].
  destruct Hacyclic as (Hclone & _ & _ & _ & Hsame); [reflexivity|].
  exists p, objs'. split; [exact Hclone | apply Hsame; reflexivity].
Defined.
